(** * homebridge-ha-composite: discovery, reconciliation and the vacuum proxy

    A shallow embedding of [src/platform.ts] (class [HACompositePlatform]) and
    of [src/vacuumAccessory.ts] (class [VacuumAccessory]), followed by the
    properties of the matcher, of the reconciliation pass and of the
    characteristic handlers.

    Conventions of the embedding.
    - JavaScript strings are [string]s of ASCII characters; the type UUIDs and
      short codes of HomeKit are hexadecimal text.
    - JavaScript numbers that occur (aid, iid, battery level) are integers and
      are modelled by [Z].
    - Values of type [any] (the context bag, the value slot of a remote
      reply) are modelled by [Js.value].
    - An [async] method is split at its single [await]: the part that runs
      synchronously up to the remote request, and the part that runs once the
      promise has settled. *)

From Stdlib Require Import ZArith List String Ascii Bool Lia.
From Stdlib Require Import Numbers.DecimalString.
Import ListNotations.

Local Open Scope string_scope.
Local Open Scope Z_scope.
Local Open Scope list_scope.

(* ================================================================= *)
(** ** JavaScript values and string built-ins *)

Module Js.

Inductive value : Type :=
| undefined
| null
| boolean (b : bool)
| number (z : Z)
| str (s : string).

(** ToBoolean: [undefined], [null], [false], [0] and the empty string are
    falsy. *)
Definition truthy (v : value) : bool :=
  match v with
  | undefined => false
  | null => false
  | boolean b => b
  | number z => negb (z =? 0)
  | str s => negb (String.eqb s "")
  end.

(** Number::toString on an integer, radix 10. *)
Definition numberToString (z : Z) : string :=
  NilZero.string_of_int (Z.to_int z).

(** ToString, as applied by [String(v)] and by template literals. *)
Definition toString (v : value) : string :=
  match v with
  | undefined => "undefined"
  | null => "null"
  | boolean true => "true"
  | boolean false => "false"
  | number z => numberToString z
  | str s => s
  end.

Definition upperChar (c : ascii) : ascii :=
  let n := nat_of_ascii c in
  if (Nat.leb 97 n && Nat.leb n 122)%bool then ascii_of_nat (n - 32) else c.

Definition lowerChar (c : ascii) : ascii :=
  let n := nat_of_ascii c in
  if (Nat.leb 65 n && Nat.leb n 90)%bool then ascii_of_nat (n + 32) else c.

(** String.prototype.toUpperCase *)
Fixpoint toUpperCase (s : string) : string :=
  match s with
  | EmptyString => EmptyString
  | String c r => String (upperChar c) (toUpperCase r)
  end.

(** String.prototype.toLowerCase *)
Fixpoint toLowerCase (s : string) : string :=
  match s with
  | EmptyString => EmptyString
  | String c r => String (lowerChar c) (toLowerCase r)
  end.

(** String.prototype.endsWith(searchString): with [len] the length of the
    receiver and [searchLength] that of the argument, the result is false
    when [len - searchLength] is negative, and otherwise tells whether the
    code units from [len - searchLength] up to [len] are the argument. *)
Definition endsWith (s searchString : string) : bool :=
  let len := String.length s in
  let searchLength := String.length searchString in
  if Nat.ltb len searchLength then false
  else String.eqb (substring (len - searchLength) searchLength s) searchString.

End Js.

(* ================================================================= *)
(** ** Map<string, V>: insertion-ordered, one entry per key *)

Module JsMap.

Section Ops.
Context {V : Type}.

Definition t := list (string * V).

Definition empty : t := [].

Fixpoint get (k : string) (m : t) : option V :=
  match m with
  | [] => None
  | (k', v) :: r => if String.eqb k k' then Some v else get k r
  end.

(** [set] keeps the position of a key that is present and appends a new
    key at the end. *)
Fixpoint set (k : string) (v : V) (m : t) : t :=
  match m with
  | [] => [(k, v)]
  | (k', v') :: r =>
      if String.eqb k k' then (k', v) :: r else (k', v') :: set k v r
  end.

Fixpoint delete (k : string) (m : t) : t :=
  match m with
  | [] => []
  | (k', v') :: r =>
      if String.eqb k k' then r else (k', v') :: delete k r
  end.

Definition keys (m : t) : list string := map fst m.

(** The representation invariant of a Map: no key occurs twice. *)
Definition wf (m : t) : Prop := NoDup (keys m).

End Ops.

Arguments t V : clear implicits.

End JsMap.

(** Array.prototype.includes on an array of strings. *)
Definition includes (l : list string) (x : string) : bool :=
  existsb (String.eqb x) l.

(* ================================================================= *)
(** ** The objects exchanged with the host and with the bridge *)

(** The context bag of a platform accessory: the three keys this plugin
    stores in it.  Each is of type [any]. *)
Record Context : Type := {
  accessoryAid : Js.value;
  onCharacteristic : Js.value;
  batteryCharacteristic : Js.value
}.

Record PlatformAccessory : Type := {
  displayName : string;
  UUID : string;
  context : Context
}.

Module RemoteCharacteristic.
Record t : Type := { type : string; iid : Z }.
End RemoteCharacteristic.

Module RemoteService.
Record t : Type := {
  type : string;
  name : option string;
  characteristics : list RemoteCharacteristic.t
}.
End RemoteService.

Module RemoteAccessory.
Record t : Type := { aid : Z; services : list RemoteService.t }.
End RemoteAccessory.

(** The way an awaited promise settles. *)
Inductive Outcome (A : Type) : Type :=
| Resolved (a : A)
| Rejected.

Arguments Resolved {A} a.
Arguments Rejected {A}.

(** One element of the array [getCharacteristics] resolves to; [value] is
    [Js.undefined] when the property is absent. *)
Record CharacteristicData : Type := {
  value : Js.value
}.

(** The hap-controller client, as far as the handlers use it: how a request
    settles. *)
Record HttpClient : Type := {
  getAccessories : Outcome (list RemoteAccessory.t);
  setCharacteristics : list (string * Js.value) -> Outcome unit;
  getCharacteristics : list string -> Outcome (list CharacteristicData)
}.

Inductive LogLevel : Type := Debug | Info | Warn | Error.

(* ================================================================= *)
(** ** vacuumAccessory.ts *)

(** The private fields of a [VacuumAccessory] and the accessory object it
    was constructed with.  The handlers read the context of that object at
    every call and never write it; [discoverDevices], which writes it,
    constructs a new handler object for the accessory each time it has done
    so. *)
Record VacuumAccessory : Type := {
  accessory : PlatformAccessory;
  lastOnState : bool;
  lastBatteryLevel : Z
}.

(** What the plugin does to the outside: log lines, requests to the bridge,
    calls of the host's registry, construction of a handler object. *)
Inductive Effect : Type :=
| Log (level : LogLevel) (message : string)
| SetCharacteristics (target : list (string * Js.value))
| GetCharacteristics (ids : list string)
| RegisterPlatformAccessories (accs : list PlatformAccessory)
| UpdatePlatformAccessories (accs : list PlatformAccessory)
| UnregisterPlatformAccessories (accs : list PlatformAccessory)
| Construct (handler : VacuumAccessory).

(** [new VacuumAccessory(platform, accessory)]: the field initialisers. *)
Definition new_VacuumAccessory (acc : PlatformAccessory) : VacuumAccessory :=
  {| accessory := acc; lastOnState := false; lastBatteryLevel := 100 |}.

Definition set_lastOnState (b : bool) (this : VacuumAccessory) : VacuumAccessory :=
  {| accessory := accessory this;
     lastOnState := b;
     lastBatteryLevel := lastBatteryLevel this |}.

Definition set_lastBatteryLevel (n : Z) (this : VacuumAccessory) : VacuumAccessory :=
  {| accessory := accessory this;
     lastOnState := lastOnState this;
     lastBatteryLevel := n |}.

(** The template literal [`${aid}.${iid}`]. *)
Definition aidIid (aid iid : Js.value) : string :=
  (Js.toString aid ++ "." ++ Js.toString iid)%string.

(** Where an async method stands when it stops running: it has returned, or
    it waits for the bridge to answer a request. *)
Inductive Suspended (Req R : Type) : Type :=
| Returned (r : R)
| Awaiting (req : Req).

Arguments Returned {Req R} r.
Arguments Awaiting {Req R} req.

(** [setOn], up to its [await]. *)
Definition setOn_begin (httpClient : option HttpClient) (boolValue : bool)
    (this : VacuumAccessory)
  : VacuumAccessory * list Effect * Suspended (list (string * Js.value)) unit :=
  let this := set_lastOnState boolValue this in
  let info := Log Info "Setting vacuum power state to" in
  let ctx := context (accessory this) in
  if negb (Js.truthy (accessoryAid ctx)) || negb (Js.truthy (onCharacteristic ctx))
  then (this,
        [info; Log Warn "On characteristic identifiers not configured for this accessory"],
        Returned tt)
  else
    match httpClient with
    | None =>
        (this,
         [info; Log Warn "HTTP client not initialised; cannot proxy command"],
         Returned tt)
    | Some _ =>
        (this, [info],
         Awaiting [(aidIid (accessoryAid ctx) (onCharacteristic ctx),
                    Js.boolean boolValue)])
    end.

(** [setOn], from the moment the awaited promise settles: the [try] block
    ends, or the [catch] clause logs the error. *)
Definition setOn_resume (settled : Outcome unit) (this : VacuumAccessory)
  : VacuumAccessory * list Effect :=
  match settled with
  | Resolved _ => (this, [])
  | Rejected => (this, [Log Error "Failed to set vacuum power state:"])
  end.

(** [setOn] run to completion against a client. *)
Definition setOn (httpClient : option HttpClient) (boolValue : bool)
    (this : VacuumAccessory) : VacuumAccessory * list Effect :=
  match setOn_begin httpClient boolValue this, httpClient with
  | (this1, eff, Awaiting target), Some client =>
      let '(this2, eff2) := setOn_resume (setCharacteristics client target) this1 in
      (this2, eff ++ SetCharacteristics target :: eff2)
  | (this1, eff, _), _ => (this1, eff)
  end.

(** [getOn] *)
Definition getOn (this : VacuumAccessory) : VacuumAccessory * list Effect * bool :=
  (this, [], lastOnState this).

(** [getBatteryLevel], up to its [await]. *)
Definition getBatteryLevel_begin (httpClient : option HttpClient)
    (this : VacuumAccessory)
  : VacuumAccessory * list Effect * Suspended (list string) Z :=
  let ctx := context (accessory this) in
  if negb (Js.truthy (accessoryAid ctx)) || negb (Js.truthy (batteryCharacteristic ctx))
  then (this,
        [Log Warn "Battery characteristic identifiers not configured for this accessory"],
        Returned (lastBatteryLevel this))
  else
    match httpClient with
    | None =>
        (this,
         [Log Warn "HTTP client not initialised; returning cached battery level"],
         Returned (lastBatteryLevel this))
    | Some _ =>
        (this, [],
         Awaiting [aidIid (accessoryAid ctx) (batteryCharacteristic ctx)])
    end.

(** [characteristics[0]?.value] *)
Definition firstValue (characteristics : list CharacteristicData) : Js.value :=
  match nth_error characteristics 0 with
  | Some c => value c
  | None => Js.undefined
  end.

(** [getBatteryLevel], from the moment the awaited promise settles. *)
Definition getBatteryLevel_resume (settled : Outcome (list CharacteristicData))
    (this : VacuumAccessory) : VacuumAccessory * list Effect * Z :=
  match settled with
  | Resolved characteristics =>
      let this :=
        match firstValue characteristics with
        | Js.number n => set_lastBatteryLevel n this
        | _ => this
        end in
      (this, [], lastBatteryLevel this)
  | Rejected =>
      (this, [Log Error "Failed to read battery level:"], lastBatteryLevel this)
  end.

(** [getBatteryLevel] run to completion against a client. *)
Definition getBatteryLevel (httpClient : option HttpClient) (this : VacuumAccessory)
  : VacuumAccessory * list Effect * Z :=
  match getBatteryLevel_begin httpClient this, httpClient with
  | (this1, eff, Awaiting ids), Some client =>
      let '(this2, eff2, level) :=
        getBatteryLevel_resume (getCharacteristics client ids) this1 in
      (this2, eff ++ GetCharacteristics ids :: eff2, level)
  | (this1, eff, Returned level), _ => (this1, eff, level)
  | (this1, eff, Awaiting _), None => (this1, eff, lastBatteryLevel this1)
  end.

(** A call of one of the three handlers by the host, with the client the
    platform holds at that moment. *)
Inductive Call : Type :=
| CallSetOn (httpClient : option HttpClient) (boolValue : bool)
| CallGetOn
| CallGetBatteryLevel (httpClient : option HttpClient).

Inductive Answer : Type :=
| SetOnDone
| OnState (b : bool)
| BatteryLevel (level : Z).

Definition run_call (c : Call) (this : VacuumAccessory)
  : VacuumAccessory * list Effect * Answer :=
  match c with
  | CallSetOn httpClient b =>
      let '(this', eff) := setOn httpClient b this in (this', eff, SetOnDone)
  | CallGetOn =>
      let '(this', eff, b) := getOn this in (this', eff, OnState b)
  | CallGetBatteryLevel httpClient =>
      let '(this', eff, level) := getBatteryLevel httpClient this in
      (this', eff, BatteryLevel level)
  end.

(** The calls a handler object serves during its life, in order. *)
Fixpoint run_calls (cs : list Call) (this : VacuumAccessory)
  : VacuumAccessory * list Effect * list Answer :=
  match cs with
  | [] => (this, [], [])
  | c :: rest =>
      let '(this1, eff1, a) := run_call c this in
      let '(this2, eff2, answers) := run_calls rest this1 in
      (this2, eff1 ++ eff2, a :: answers)
  end.

(* ================================================================= *)
(** ** platform.ts *)

(** What the platform uses of the host's [api]: the deterministic identifier
    generator [api.hap.uuid.generate].  The registry calls of the [api] are
    recorded as effects. *)
Record API : Type := {
  uuid_generate : string -> string
}.

(** The fields of [HACompositePlatform] that discovery reads or writes. *)
Record Platform : Type := {
  api : API;
  accessories : JsMap.t PlatformAccessory;
  discoveredCacheUUIDs : list string;
  bridgeAccessories : list RemoteAccessory.t;
  httpClient : option HttpClient
}.

(** The state the constructor leaves, for a given host [api]. *)
Definition new_Platform (a : API) : Platform :=
  {| api := a;
     accessories := JsMap.empty;
     discoveredCacheUUIDs := [];
     bridgeAccessories := [];
     httpClient := None |}.

(** [config.controller] *)
Module ControllerConfig.
Record t : Type := {
  id : Js.value;
  address : Js.value;
  port : Js.value;
  pairingData : Js.value
}.
End ControllerConfig.

(** [connectToBridge].  [controller] is [None] when the platform config has
    no [controller] key; [newHttpClient] is what [new HttpClient(...)] gives,
    [Rejected] standing for an exception thrown inside the [try] block
    before the client is stored. *)
Definition connectToBridge (controller : option ControllerConfig.t)
    (newHttpClient : Outcome HttpClient) (p : Platform) : Platform * list Effect :=
  match controller with
  | None =>
      (p, [Log Warn "No controller configuration found for Home Assistant bridge."])
  | Some cfg =>
      if negb (Js.truthy (ControllerConfig.id cfg))
         || negb (Js.truthy (ControllerConfig.address cfg))
         || negb (Js.truthy (ControllerConfig.port cfg))
         || negb (Js.truthy (ControllerConfig.pairingData cfg))
      then (p, [Log Warn "Incomplete controller configuration. Please specify id, address, port and pairingData."])
      else
        let dbg := Log Debug "Connecting to HomeKit bridge" in
        let failed := Log Error "Failed to connect or list accessories:" in
        match newHttpClient with
        | Rejected => (p, [dbg; failed])
        | Resolved client =>
            match getAccessories client with
            | Resolved listed =>
                ({| api := api p;
                    accessories := accessories p;
                    discoveredCacheUUIDs := discoveredCacheUUIDs p;
                    bridgeAccessories := listed;
                    httpClient := Some client |},
                 [dbg; Log Info "Retrieved accessories from bridge"])
            | Rejected =>
                ({| api := api p;
                    accessories := accessories p;
                    discoveredCacheUUIDs := discoveredCacheUUIDs p;
                    bridgeAccessories := bridgeAccessories p;
                    httpClient := Some client |},
                 [dbg; failed])
            end
        end
  end.

(** [configureAccessory]: the host hands over an accessory restored from its
    cache. *)
Definition configureAccessory (acc : PlatformAccessory) (p : Platform)
  : Platform * list Effect :=
  ({| api := api p;
      accessories := JsMap.set (UUID acc) acc (accessories p);
      discoveredCacheUUIDs := discoveredCacheUUIDs p;
      bridgeAccessories := bridgeAccessories p;
      httpClient := httpClient p |},
   [Log Info "Loading accessory from cache:"]).

(** The helper of [discoverDevices]:
    [uuid.endsWith(code) || uuid.endsWith(code.toUpperCase())]. *)
Definition endsWithShort (uuid code : string) : bool :=
  Js.endsWith uuid code || Js.endsWith uuid (Js.toUpperCase code).

Definition hasSwitch (acc : RemoteAccessory.t) : bool :=
  existsb (fun svc => endsWithShort (RemoteService.type svc) "49")
          (RemoteAccessory.services acc).

Definition hasBattery (acc : RemoteAccessory.t) : bool :=
  existsb (fun svc => endsWithShort (RemoteService.type svc) "96")
          (RemoteAccessory.services acc).

(** The first loop of [discoverDevices]: it stops at the first accessory that
    has both services and leaves [candidateAccessory] undefined when it runs
    off the end. *)
Fixpoint findCandidate (bridge : list RemoteAccessory.t) : option RemoteAccessory.t :=
  match bridge with
  | [] => None
  | acc :: rest =>
      if hasSwitch acc && hasBattery acc then Some acc else findCandidate rest
  end.

(** The loop over the characteristics of one service: every characteristic
    whose type ends in [code] assigns its iid to the variable. *)
Definition scanCharacteristics (code : string)
    (chs : list RemoteCharacteristic.t) (captured : Js.value) : Js.value :=
  fold_left
    (fun captured ch =>
       if endsWithShort (RemoteCharacteristic.type ch) code
       then Js.number (RemoteCharacteristic.iid ch)
       else captured)
    chs captured.

(** The body of the loop over the services of the candidate, on the pair
    [(onCharacteristic, batteryCharacteristic)]. *)
Definition scanService (captured : Js.value * Js.value) (svc : RemoteService.t)
  : Js.value * Js.value :=
  let '(on, battery) := captured in
  if endsWithShort (RemoteService.type svc) "49"
  then (scanCharacteristics "25" (RemoteService.characteristics svc) on, battery)
  else if endsWithShort (RemoteService.type svc) "96"
  then (on, scanCharacteristics "68" (RemoteService.characteristics svc) battery)
  else (on, battery).

(** Both variables start out [undefined]. *)
Definition extractCharacteristics (svcs : list RemoteService.t)
  : Js.value * Js.value :=
  fold_left scanService svcs (Js.undefined, Js.undefined).

(** [candidateAccessory.services[0]?.name || 'Robot Vacuum'] *)
Definition candidateDisplayName (acc : RemoteAccessory.t) : string :=
  match RemoteAccessory.services acc with
  | svc :: _ =>
      match RemoteService.name svc with
      | Some n => if String.eqb n "" then "Robot Vacuum" else n
      | None => "Robot Vacuum"
      end
  | [] => "Robot Vacuum"
  end.

(** One turn of the last loop of [discoverDevices], on the map and the
    effects so far. *)
Definition retire (discovered : list string)
    (st : JsMap.t PlatformAccessory * list Effect)
    (entry : string * PlatformAccessory)
  : JsMap.t PlatformAccessory * list Effect :=
  let '(id, acc) := entry in
  if negb (includes discovered id)
  then (JsMap.delete id (fst st),
        snd st ++ [Log Info "Removing existing accessory from cache:";
                   UnregisterPlatformAccessories [acc]])
  else st.

(** The last loop: it visits the entries the map holds when the loop starts;
    the only change made during the loop is the deletion of the entry being
    visited, so every entry is visited once. *)
Definition removeStale (discovered : list string) (m : JsMap.t PlatformAccessory)
  : JsMap.t PlatformAccessory * list Effect :=
  fold_left (retire discovered) m (m, []).

Definition set_context (ctx : Context) (acc : PlatformAccessory) : PlatformAccessory :=
  {| displayName := displayName acc; UUID := UUID acc; context := ctx |}.

(** The two warnings about characteristics that were not located. *)
Definition missingWarnings (on battery : Js.value) : list Effect :=
  (if negb (Js.truthy on)
   then [Log Warn "Could not locate On characteristic for vacuum accessory"]
   else [])
  ++ (if negb (Js.truthy battery)
      then [Log Warn "Could not locate BatteryLevel characteristic for vacuum accessory"]
      else []).

(** The [if (existing) ... else ...] block of [discoverDevices].  The
    accessory object found in the map is changed in place by the three
    assignments to its context; the map owns the object, so the change is a
    replacement of the value under the same key. *)
Definition reuseOrCreate (candidateAccessory : RemoteAccessory.t)
    (uuid : string) (ctx : Context) (accs : JsMap.t PlatformAccessory)
  : JsMap.t PlatformAccessory * list Effect :=
  match JsMap.get uuid accs with
  | Some existing =>
      let existing := set_context ctx existing in
      (JsMap.set uuid existing accs,
       [Log Info "Restoring existing vacuum accessory from cache:";
        Construct (new_VacuumAccessory existing);
        UpdatePlatformAccessories [existing]])
  | None =>
      let acc := {| displayName := candidateDisplayName candidateAccessory;
                    UUID := uuid;
                    context := ctx |} in
      (JsMap.set uuid acc accs,
       [Log Info "Adding new vacuum accessory:";
        Construct (new_VacuumAccessory acc);
        RegisterPlatformAccessories [acc]])
  end.

(** [discoverDevices] *)
Definition discoverDevices (p : Platform) : Platform * list Effect :=
  match httpClient p, bridgeAccessories p with
  | None, _ | _, [] =>
      (p, [Log Warn "No HomeKit bridge connection or accessories available; skipping discovery"])
  | Some _, _ :: _ =>
      match findCandidate (bridgeAccessories p) with
      | None => (p, [Log Warn "No suitable vacuum accessory found on the bridge"])
      | Some candidateAccessory =>
          let aid := Js.number (RemoteAccessory.aid candidateAccessory) in
          let '(on, battery) :=
            extractCharacteristics (RemoteAccessory.services candidateAccessory) in
          let uuid := uuid_generate (api p) (Js.toString aid) in
          let ctx := {| accessoryAid := aid;
                        onCharacteristic := on;
                        batteryCharacteristic := battery |} in
          let '(accs, eff) :=
            reuseOrCreate candidateAccessory uuid ctx (accessories p) in
          let discovered := discoveredCacheUUIDs p ++ [uuid] in
          let '(accs', eff') := removeStale discovered accs in
          ({| api := api p;
              accessories := accs';
              discoveredCacheUUIDs := discovered;
              bridgeAccessories := bridgeAccessories p;
              httpClient := httpClient p |},
           missingWarnings on battery ++ eff ++ eff')
      end
  end.

(** The handler of [didFinishLaunching]: connect, then discover, whatever
    the connection attempt gave. *)
Definition didFinishLaunching (controller : option ControllerConfig.t)
    (newHttpClient : Outcome HttpClient) (p : Platform) : Platform * list Effect :=
  let '(p1, eff1) := connectToBridge controller newHttpClient p in
  let '(p2, eff2) := discoverDevices p1 in
  (p2, eff1 ++ eff2).

(* ================================================================= *)
(** ** Vocabulary of the properties *)

(** The accessory a discovery cycle matches: none when the guard at the top
    of [discoverDevices] returns, otherwise what the first loop finds. *)
Definition matchedAccessory (p : Platform) : option RemoteAccessory.t :=
  match httpClient p, bridgeAccessories p with
  | None, _ | _, [] => None
  | Some _, _ :: _ => findCandidate (bridgeAccessories p)
  end.

(** The identifier derived from the aid of a remote accessory. *)
Definition derivedIdentifier (p : Platform) (acc : RemoteAccessory.t) : string :=
  uuid_generate (api p) (Js.toString (Js.number (RemoteAccessory.aid acc))).

(** The context a cycle stores for the accessory it matched. *)
Definition matchedContext (acc : RemoteAccessory.t) : Context :=
  let captured := extractCharacteristics (RemoteAccessory.services acc) in
  {| accessoryAid := Js.number (RemoteAccessory.aid acc);
     onCharacteristic := fst captured;
     batteryCharacteristic := snd captured |}.

(** How many accessories with identifier [id] the effects hand to
    [unregisterPlatformAccessories]. *)
Fixpoint unregistrations (id : string) (eff : list Effect) : nat :=
  match eff with
  | [] => O
  | UnregisterPlatformAccessories accs :: rest =>
      (List.length (filter (fun a => String.eqb (UUID a) id) accs)
       + unregistrations id rest)%nat
  | _ :: rest => unregistrations id rest
  end.

(** Likewise for [registerPlatformAccessories]. *)
Fixpoint registrations (id : string) (eff : list Effect) : nat :=
  match eff with
  | [] => O
  | RegisterPlatformAccessories accs :: rest =>
      (List.length (filter (fun a => String.eqb (UUID a) id) accs)
       + registrations id rest)%nat
  | _ :: rest => registrations id rest
  end.

(** The registry as the host and the platform keep it: one entry per key,
    every accessory filed under its own UUID. *)
Definition registry_ok (m : JsMap.t PlatformAccessory) : Prop :=
  JsMap.wf m /\ forall k a, In (k, a) m -> UUID a = k.

(** The requests to the bridge among some effects. *)
Definition isRequest (e : Effect) : bool :=
  match e with
  | SetCharacteristics _ | GetCharacteristics _ => true
  | _ => false
  end.

Definition requests (eff : list Effect) : list Effect := filter isRequest eff.

(** A remote accessory has a service of each of the two required types. *)
Definition covers (acc : RemoteAccessory.t) : Prop :=
  (exists svc, In svc (RemoteAccessory.services acc)
               /\ endsWithShort (RemoteService.type svc) "49" = true)
  /\ (exists svc, In svc (RemoteAccessory.services acc)
                  /\ endsWithShort (RemoteService.type svc) "96" = true).

(** Two strings that differ in letter case only. *)
Definition sameModuloCase (s t : string) : Prop :=
  Js.toLowerCase s = Js.toLowerCase t.

(** A string without letters: changing case leaves it as it is. *)
Definition caseless (s : string) : Prop :=
  Js.toUpperCase s = s /\ Js.toLowerCase s = s.

(** The short codes [discoverDevices] passes to [endsWithShort]: Switch and
    Battery for services, On and BatteryLevel for characteristics. *)
Definition requiredCodes : list string := ["49"; "96"; "25"; "68"].

(** The guard of [connectToBridge]: a [controller] key is present and its
    four fields are truthy. *)
Definition configured (controller : option ControllerConfig.t) : bool :=
  match controller with
  | Some cfg =>
      Js.truthy (ControllerConfig.id cfg)
      && Js.truthy (ControllerConfig.address cfg)
      && Js.truthy (ControllerConfig.port cfg)
      && Js.truthy (ControllerConfig.pairingData cfg)
  | None => false
  end.

(** [ch] is the last characteristic of [svc] whose type ends in [code]. *)
Definition lastMatching (code : string) (svc : RemoteService.t)
    (ch : RemoteCharacteristic.t) : Prop :=
  exists before after,
    RemoteService.characteristics svc = before ++ ch :: after
    /\ endsWithShort (RemoteCharacteristic.type ch) code = true
    /\ (forall c, In c after
                  -> endsWithShort (RemoteCharacteristic.type c) code = false).

(** No characteristic of [svc] has a type that ends in [code]. *)
Definition noneMatching (code : string) (svc : RemoteService.t) : Prop :=
  forall c, In c (RemoteService.characteristics svc) ->
            endsWithShort (RemoteCharacteristic.type c) code = false.

(** [ch] is the last characteristic of [svc] whose type ends in [code], and
    not the only one. *)
Definition lastOfSeveral (code : string) (svc : RemoteService.t)
    (ch : RemoteCharacteristic.t) : Prop :=
  exists before after,
    RemoteService.characteristics svc = before ++ ch :: after
    /\ endsWithShort (RemoteCharacteristic.type ch) code = true
    /\ (exists c, In c before
                  /\ endsWithShort (RemoteCharacteristic.type c) code = true)
    /\ (forall c, In c after
                  -> endsWithShort (RemoteCharacteristic.type c) code = false).

(** The capture rule, were it decided by any one matching service alone. *)
Definition last_duplicate_of_any_service_wins : Prop :=
  forall acc svc ch,
    hasSwitch acc && hasBattery acc = true ->
    In svc (RemoteAccessory.services acc) ->
    (endsWithShort (RemoteService.type svc) "49" = true ->
     lastOfSeveral "25" svc ch ->
     fst (extractCharacteristics (RemoteAccessory.services acc))
     = Js.number (RemoteCharacteristic.iid ch))
    /\ (endsWithShort (RemoteService.type svc) "96" = true ->
        lastOfSeveral "68" svc ch ->
        snd (extractCharacteristics (RemoteAccessory.services acc))
        = Js.number (RemoteCharacteristic.iid ch)).

(** Retirement, were it to happen in every cycle: each accessory of the
    registry whose identifier this cycle's match does not produce is gone
    after the cycle and was unregistered once. *)
Definition retirement_in_every_cycle : Prop :=
  forall p id acc,
    registry_ok (accessories p) ->
    In (id, acc) (accessories p) ->
    option_map (derivedIdentifier p) (matchedAccessory p) <> Some id ->
    JsMap.get id (accessories (fst (discoverDevices p))) = None
    /\ unregistrations id (snd (discoverDevices p)) = 1%nat.

(** What a cycle that matched [cand] leaves in the registry and does to the
    host, in terms of the steps of [discoverDevices]. *)
Definition afterReuseOrCreate (p : Platform) (cand : RemoteAccessory.t)
  : JsMap.t PlatformAccessory * list Effect :=
  reuseOrCreate cand (derivedIdentifier p cand) (matchedContext cand) (accessories p).

Definition discoveredAfter (p : Platform) (cand : RemoteAccessory.t) : list string :=
  discoveredCacheUUIDs p ++ [derivedIdentifier p cand].

(** The entries the last loop keeps. *)
Definition seen (discovered : list string) (entry : string * PlatformAccessory) : bool :=
  includes discovered (fst entry).

(** The effects of the last loop, entry by entry. *)
Definition retireEffects (discovered : list string)
    (m : JsMap.t PlatformAccessory) : list Effect :=
  flat_map
    (fun entry =>
       if seen discovered entry then []
       else [Log Info "Removing existing accessory from cache:";
             UnregisterPlatformAccessories [snd entry]])
    m.

(** A restart: the host constructs a new platform object and hands it, one
    by one, the accessories it has kept. *)
Definition restore (a : API) (kept : JsMap.t PlatformAccessory) : Platform :=
  fold_left (fun p entry => fst (configureAccessory (snd entry) p))
            kept (new_Platform a).

(** An address component that the handlers take for missing. *)
Definition missing (v : Js.value) : Prop := Js.truthy v = false.

(* ================================================================= *)
(** ** Concrete objects used in examples *)

Definition exampleApi : API := {| uuid_generate := fun s => ("uuid-" ++ s)%string |}.

(** A client whose requests all succeed; a battery read finds 42. *)
Definition exampleClient (graph : list RemoteAccessory.t) : HttpClient :=
  {| getAccessories := Resolved graph;
     setCharacteristics := fun _ => Resolved tt;
     getCharacteristics := fun _ => Resolved [ {| value := Js.number 42 |} ] |}.

(** A client whose requests all fail. *)
Definition failingClient : HttpClient :=
  {| getAccessories := Rejected;
     setCharacteristics := fun _ => Rejected;
     getCharacteristics := fun _ => Rejected |}.

(** One accessory, aid 5: a Switch service with On at iid 8 and a Battery
    service with BatteryLevel at iid 9. *)
Definition exampleVacuum : RemoteAccessory.t :=
  {| RemoteAccessory.aid := 5;
     RemoteAccessory.services :=
       [ {| RemoteService.type := "00000049-0000-1000-8000-0026BB765249";
            RemoteService.name := Some "Vacuum";
            RemoteService.characteristics :=
              [ {| RemoteCharacteristic.type := "25"; RemoteCharacteristic.iid := 8 |} ] |};
         {| RemoteService.type := "96";
            RemoteService.name := None;
            RemoteService.characteristics :=
              [ {| RemoteCharacteristic.type := "68"; RemoteCharacteristic.iid := 9 |} ] |} ] |}.

(** An accessory with two Switch services; the first holds On twice. *)
Definition twoSwitches : RemoteAccessory.t :=
  {| RemoteAccessory.aid := 7;
     RemoteAccessory.services :=
       [ {| RemoteService.type := "49";
            RemoteService.name := None;
            RemoteService.characteristics :=
              [ {| RemoteCharacteristic.type := "25"; RemoteCharacteristic.iid := 1 |};
                {| RemoteCharacteristic.type := "25"; RemoteCharacteristic.iid := 2 |} ] |};
         {| RemoteService.type := "49";
            RemoteService.name := None;
            RemoteService.characteristics :=
              [ {| RemoteCharacteristic.type := "25"; RemoteCharacteristic.iid := 3 |} ] |};
         {| RemoteService.type := "96";
            RemoteService.name := None;
            RemoteService.characteristics :=
              [ {| RemoteCharacteristic.type := "68"; RemoteCharacteristic.iid := 4 |} ] |} ] |}.

(** An accessory restored from the host's cache, for a device of aid 3. *)
Definition cachedAccessory : PlatformAccessory :=
  {| displayName := "Old Vacuum";
     UUID := "uuid-3";
     context := {| accessoryAid := Js.number 3;
                   onCharacteristic := Js.number 8;
                   batteryCharacteristic := Js.number 9 |} |}.

(** A handler object constructed for an accessory whose context has the aid
    but neither iid. *)
Definition degradedInstance : VacuumAccessory :=
  new_VacuumAccessory
    {| displayName := "Vacuum";
       UUID := "uuid-5";
       context := {| accessoryAid := Js.number 5;
                     onCharacteristic := Js.undefined;
                     batteryCharacteristic := Js.undefined |} |}.

(** A handler object constructed for an accessory with context (5, 8, 9). *)
Definition boundInstance : VacuumAccessory :=
  new_VacuumAccessory
    {| displayName := "Vacuum";
       UUID := "uuid-5";
       context := {| accessoryAid := Js.number 5;
                     onCharacteristic := Js.number 8;
                     batteryCharacteristic := Js.number 9 |} |}.

(** A handler object whose accessory has 0 for both iids. *)
Definition zeroIidInstance : VacuumAccessory :=
  new_VacuumAccessory
    {| displayName := "Vacuum";
       UUID := "uuid-5";
       context := {| accessoryAid := Js.number 5;
                     onCharacteristic := Js.number 0;
                     batteryCharacteristic := Js.number 0 |} |}.

(** A few calls by the host: a write, a battery read against a failing
    client, a read of the switch, a battery read against a working client. *)
Definition exampleCalls : list Call :=
  [ CallSetOn (Some (exampleClient [])) true;
    CallGetBatteryLevel (Some failingClient);
    CallGetOn;
    CallGetBatteryLevel (Some (exampleClient [])) ].

(** A controller configuration that lacks [pairingData]. *)
Definition configWithoutPairing : ControllerConfig.t :=
  {| ControllerConfig.id := Js.str "AA:BB:CC:DD:EE:FF";
     ControllerConfig.address := Js.str "192.168.1.10";
     ControllerConfig.port := Js.number 51826;
     ControllerConfig.pairingData := Js.undefined |}.

(** The platform after the host restored [cachedAccessory]. *)
Definition restoredPlatform : Platform :=
  fst (configureAccessory cachedAccessory (new_Platform exampleApi)).

(** A complete controller configuration. *)
Definition fullConfig : ControllerConfig.t :=
  {| ControllerConfig.id := Js.str "AA:BB:CC:DD:EE:FF";
     ControllerConfig.address := Js.str "192.168.1.10";
     ControllerConfig.port := Js.number 51826;
     ControllerConfig.pairingData := Js.str "{...}" |}.

(** The restored platform once connected to a bridge that lists
    [exampleVacuum]. *)
Definition connectedPlatform : Platform :=
  fst (connectToBridge (Some fullConfig)
         (Resolved (exampleClient [exampleVacuum])) restoredPlatform).

(** The restored platform after a connection attempt without pairing
    data. *)
Definition unconnectedPlatform : Platform :=
  fst (connectToBridge (Some configWithoutPairing)
         (Resolved (exampleClient [exampleVacuum])) restoredPlatform).

(* ================================================================= *)
(** ** discover.ts *)

Module CommandLineArguments.
Record t : Type := {
  pinCode : option string;
  targetName : option string
}.
End CommandLineArguments.

(** The object [parseCommandLineArguments] starts from: no key is set. *)
Definition noArguments : CommandLineArguments.t :=
  {| CommandLineArguments.pinCode := None;
     CommandLineArguments.targetName := None |}.

Definition set_pinCode (v : string) (c : CommandLineArguments.t)
  : CommandLineArguments.t :=
  {| CommandLineArguments.pinCode := Some v;
     CommandLineArguments.targetName := CommandLineArguments.targetName c |}.

Definition set_targetName (v : string) (c : CommandLineArguments.t)
  : CommandLineArguments.t :=
  {| CommandLineArguments.pinCode := CommandLineArguments.pinCode c;
     CommandLineArguments.targetName := Some v |}.

Definition isPinFlag (argument : string) : bool :=
  String.eqb argument "--pin" || String.eqb argument "-p".

Definition isNameFlag (argument : string) : bool :=
  String.eqb argument "--name" || String.eqb argument "-n".

(** The loop of [parseCommandLineArguments] from some index on: the
    arguments not yet visited and the object built so far.  A flag looks at
    the next argument; when that one is a non-empty string it is stored and
    skipped, otherwise (empty, or none left) the flag does nothing and the
    loop goes on with the next argument. *)
Fixpoint parseLoop (rawArguments : list string) (c : CommandLineArguments.t)
  : CommandLineArguments.t :=
  match rawArguments with
  | [] => c
  | argument :: rest =>
      if isPinFlag argument then
        match rest with
        | value :: rest' =>
            if negb (String.eqb value "")
            then parseLoop rest' (set_pinCode value c)
            else parseLoop rest c
        | [] => c
        end
      else if isNameFlag argument then
        match rest with
        | value :: rest' =>
            if negb (String.eqb value "")
            then parseLoop rest' (set_targetName value c)
            else parseLoop rest c
        | [] => c
        end
      else parseLoop rest c
  end.

(** [parseCommandLineArguments], given [process.argv]. *)
Definition parseCommandLineArguments (argv : list string) : CommandLineArguments.t :=
  parseLoop (skipn 2 argv) noArguments.

(** What the discovery reports of a service it has found. *)
Module DiscoveredService.
Record t : Type := {
  name : string;
  id : string;
  address : string;
  port : Z
}.
End DiscoveredService.

(** What the script does to the outside. *)
Inductive ScriptEffect : Type :=
| ConsoleLog (message : string)
| ConsoleWarn (message : string)
| ConsoleError (message : string)
| PairSetup (service : DiscoveredService.t) (pin : string)
| DiscoveryStop.

(** [x && ...] and [!x] on an optional string: absent and empty are falsy. *)
Definition given (x : option string) : option string :=
  match x with
  | Some v => if String.eqb v "" then None else Some v
  | None => None
  end.

(** The listener of ['serviceUp'] in [main], run to completion.
    [newHttpClient] tells whether the construction of the client succeeds;
    [pairing] is how [pairSetup] followed by [getLongTermData] and
    [JSON.stringify] ends: with the text of the pairing data, or with an
    exception. *)
Definition serviceUp (c : CommandLineArguments.t)
    (newHttpClient : Outcome unit) (pairing : Outcome string)
    (discoveredService : DiscoveredService.t) : list ScriptEffect :=
  ConsoleLog "Discovered accessory:"
  :: match given (CommandLineArguments.targetName c) with
     | Some target =>
         if String.eqb (DiscoveredService.name discoveredService) target then
           match given (CommandLineArguments.pinCode c) with
           | None => [ConsoleWarn "PIN code was not provided; skipping pairing."]
           | Some pin =>
               (ConsoleLog "Attempting to pair with"
                :: match newHttpClient with
                   | Rejected => [ConsoleError "Failed to pair with"]
                   | Resolved _ =>
                       PairSetup discoveredService pin
                       :: match pairing with
                          | Resolved data =>
                              [ConsoleLog "Pairing complete. Save the following JSON to your Homebridge config:";
                               ConsoleLog data]
                          | Rejected => [ConsoleError "Failed to pair with"]
                          end
                   end)
               ++ [DiscoveryStop]
           end
         else []
     | None => []
     end.

(* ================================================================= *)
(** ** Vocabulary of further properties *)

(** The states a platform object can be in: the one its constructor leaves,
    and those the three methods lead to. *)
Inductive reachable (a : API) : Platform -> Prop :=
| reach_new : reachable a (new_Platform a)
| reach_configure acc p :
    reachable a p -> reachable a (fst (configureAccessory acc p))
| reach_connect controller newHttpClient p :
    reachable a p -> reachable a (fst (connectToBridge controller newHttpClient p))
| reach_discover p :
    reachable a p -> reachable a (fst (discoverDevices p)).

(** The calls of the host's registry and the constructions of handler
    objects among some effects. *)
Definition isRegistryCall (e : Effect) : bool :=
  match e with
  | RegisterPlatformAccessories _ | UpdatePlatformAccessories _
  | UnregisterPlatformAccessories _ | Construct _ => true
  | _ => false
  end.

(** The accessories handed to [updatePlatformAccessories]. *)
Fixpoint updated (eff : list Effect) : list PlatformAccessory :=
  match eff with
  | [] => []
  | UpdatePlatformAccessories accs :: rest => accs ++ updated rest
  | _ :: rest => updated rest
  end.

(** The accessories handed to [registerPlatformAccessories]. *)
Fixpoint registered (eff : list Effect) : list PlatformAccessory :=
  match eff with
  | [] => []
  | RegisterPlatformAccessories accs :: rest => accs ++ registered rest
  | _ :: rest => registered rest
  end.

(** The handler objects constructed. *)
Fixpoint constructed (eff : list Effect) : list VacuumAccessory :=
  match eff with
  | [] => []
  | Construct h :: rest => h :: constructed rest
  | _ :: rest => constructed rest
  end.

(** The value of the last write among some calls, [b] when there is none. *)
Definition lastWrite (cs : list Call) (b : bool) : bool :=
  fold_left (fun b c => match c with CallSetOn _ v => v | _ => b end) cs b.

(** A service of type [svcCode] of the list holds a characteristic of type
    [chCode] with instance id [n]. *)
Definition holds (svcCode chCode : string) (svcs : list RemoteService.t) (n : Z) : Prop :=
  exists svc ch,
    In svc svcs /\ In ch (RemoteService.characteristics svc)
    /\ endsWithShort (RemoteService.type svc) svcCode = true
    /\ endsWithShort (RemoteCharacteristic.type ch) chCode = true
    /\ RemoteCharacteristic.iid ch = n.

(** What the two captured variables can hold: nothing, or the iid of a
    characteristic of the wanted type in a service of the wanted type. *)
Definition genuine (svcs : list RemoteService.t) (captured : Js.value * Js.value) : Prop :=
  (fst captured = Js.undefined
   \/ exists n, fst captured = Js.number n /\ holds "49" "25" svcs n)
  /\ (snd captured = Js.undefined
      \/ exists n, snd captured = Js.number n /\ holds "96" "68" svcs n).

(** A remote vacuum whose On characteristic has the instance id 0. *)
Definition zeroIidVacuum : RemoteAccessory.t :=
  {| RemoteAccessory.aid := 6;
     RemoteAccessory.services :=
       [ {| RemoteService.type := "49";
            RemoteService.name := Some "";
            RemoteService.characteristics :=
              [ {| RemoteCharacteristic.type := "25"; RemoteCharacteristic.iid := 0 |} ] |};
         {| RemoteService.type := "96";
            RemoteService.name := None;
            RemoteService.characteristics :=
              [ {| RemoteCharacteristic.type := "68"; RemoteCharacteristic.iid := 9 |} ] |} ] |}.

(** A new platform connected to a bridge that lists [zeroIidVacuum]. *)
Definition zeroIidPlatform : Platform :=
  fst (connectToBridge (Some fullConfig)
         (Resolved (exampleClient [zeroIidVacuum])) (new_Platform exampleApi)).

(** A bridge the discovery reports. *)
Definition exampleBridge : DiscoveredService.t :=
  {| DiscoveredService.name := "HA";
     DiscoveredService.id := "AA:BB:CC:DD:EE:FF";
     DiscoveredService.address := "192.168.1.10";
     DiscoveredService.port := 51826 |}.

(** The arguments the usage line of the script shows for given values. *)
Definition usage (c : CommandLineArguments.t) : list string :=
  match CommandLineArguments.pinCode c with
  | Some pin => ["--pin"; pin]
  | None => []
  end
  ++ match CommandLineArguments.targetName c with
     | Some n => ["--name"; n]
     | None => []
     end.

(** No argument of the list is one of the four flags. *)
Definition flagless (l : list string) : Prop :=
  forall x, In x l -> isPinFlag x = false /\ isNameFlag x = false.

(* ================================================================= *)
(** ** Strings: suffixes and case *)

Section StringFacts.

Local Open Scope string_scope.

Lemma str_length_app (a b : string) :
  String.length (a ++ b) = (String.length a + String.length b)%nat.
Proof. induction a as [|c a IH]; simpl; [reflexivity | now rewrite IH]. Qed.

Lemma substring_whole (t : string) : substring 0 (String.length t) t = t.
Proof. induction t as [|c t IH]; simpl; [reflexivity | now rewrite IH]. Qed.

Lemma substring_skip_prefix (p t : string) :
  substring (String.length p) (String.length t) (p ++ t) = t.
Proof. induction p as [|c p IH]; simpl; [apply substring_whole | exact IH]. Qed.

Lemma substring_split (s : string) :
  forall n, (n <= String.length s)%nat ->
    substring 0 n s ++ substring n (String.length s - n) s = s.
Proof.
  induction s as [|c s IH]; intros [|n] Hn; simpl in *.
  - reflexivity.
  - lia.
  - now rewrite substring_whole.
  - f_equal. apply IH. lia.
Qed.

Lemma str_app_inj_length (p q a b : string) :
  String.length p = String.length q -> p ++ a = q ++ b -> p = q /\ a = b.
Proof.
  revert q. induction p as [|c p IH]; intros [|d q] Hlen Heq; simpl in *;
    try discriminate.
  - now split.
  - injection Heq as -> Heq. injection Hlen as Hlen.
    destruct (IH q Hlen Heq) as [-> ->]. now split.
Qed.

Lemma str_app_inj_length_r (p q a b : string) :
  String.length a = String.length b -> p ++ a = q ++ b -> p = q /\ a = b.
Proof.
  intros Hlen Heq. apply str_app_inj_length; [|exact Heq].
  apply (f_equal String.length) in Heq. rewrite !str_length_app in Heq. lia.
Qed.

(** [endsWith] is the suffix relation. *)
Lemma endsWith_iff (s t : string) :
  Js.endsWith s t = true <-> exists p, s = p ++ t.
Proof.
  unfold Js.endsWith. split.
  - destruct (Nat.ltb_spec (String.length s) (String.length t)) as [|Hle];
      [discriminate|].
    intros H. apply String.eqb_eq in H.
    exists (substring 0 (String.length s - String.length t) s).
    assert (Hs := substring_split s (String.length s - String.length t)).
    replace (String.length s - (String.length s - String.length t))%nat
      with (String.length t) in Hs by lia.
    rewrite H in Hs. symmetry. apply Hs. lia.
  - intros [p ->]. rewrite str_length_app.
    destruct (Nat.ltb_spec (String.length p + String.length t) (String.length t));
      [lia|].
    replace (String.length p + String.length t - String.length t)%nat
      with (String.length p) by lia.
    rewrite substring_skip_prefix. apply String.eqb_refl.
Qed.

Lemma endsWith_app (p t : string) : Js.endsWith (p ++ t) t = true.
Proof. apply endsWith_iff. now exists p. Qed.

Lemma toUpperCase_app (a b : string) :
  Js.toUpperCase (a ++ b) = Js.toUpperCase a ++ Js.toUpperCase b.
Proof. induction a as [|c a IH]; simpl; [reflexivity | now rewrite IH]. Qed.

Lemma toLowerCase_app (a b : string) :
  Js.toLowerCase (a ++ b) = Js.toLowerCase a ++ Js.toLowerCase b.
Proof. induction a as [|c a IH]; simpl; [reflexivity | now rewrite IH]. Qed.

Lemma toUpperCase_length (s : string) :
  String.length (Js.toUpperCase s) = String.length s.
Proof. induction s as [|c s IH]; simpl; [reflexivity | now rewrite IH]. Qed.

Lemma toLowerCase_length (s : string) :
  String.length (Js.toLowerCase s) = String.length s.
Proof. induction s as [|c s IH]; simpl; [reflexivity | now rewrite IH]. Qed.

(** Splitting the lower-case image of a string splits the string. *)
Lemma toLowerCase_app_inv (s : string) :
  forall a b, Js.toLowerCase s = a ++ b ->
    exists a' b', s = a' ++ b'
                  /\ Js.toLowerCase a' = a /\ Js.toLowerCase b' = b.
Proof.
  induction s as [|c s IH]; intros a b H; simpl in H.
  - destruct a; [|discriminate]. simpl in H. subst b.
    now exists "", "".
  - destruct a as [|d a]; simpl in H.
    + subst b. now exists "", (String c s).
    + injection H as Hd H. destruct (IH _ _ H) as (a' & b' & -> & Ha & Hb).
      exists (String c a'), b'. simpl. now rewrite Hd, Ha, Hb.
Qed.

Lemma upperChar_lowerChar (c : ascii) :
  Js.upperChar (Js.lowerChar c) = Js.upperChar c.
Proof. destruct c as [[] [] [] [] [] [] [] []]; reflexivity. Qed.

(** A character whose both case images are itself is the image of no
    other character. *)
Lemma lowerChar_caseless (c d : ascii) :
  Js.lowerChar c = d -> Js.upperChar d = d -> c = d.
Proof.
  intros <-.
  destruct c as [[] [] [] [] [] [] [] []]; vm_compute; congruence.
Qed.

Lemma toUpperCase_toLowerCase (s : string) :
  Js.toUpperCase (Js.toLowerCase s) = Js.toUpperCase s.
Proof.
  induction s as [|c s IH]; simpl; [reflexivity|].
  now rewrite upperChar_lowerChar, IH.
Qed.

Lemma toLowerCase_caseless (s : string) :
  forall t, Js.toLowerCase s = t -> Js.toUpperCase t = t -> s = t.
Proof.
  induction s as [|c s IH]; intros [|d t] H Hu; simpl in *; try discriminate.
  - reflexivity.
  - injection H as Hc H. injection Hu as Hd Hu.
    f_equal; [now apply lowerChar_caseless | now apply IH].
Qed.

Lemma sameModuloCase_upper (s t : string) :
  sameModuloCase s t -> Js.toUpperCase s = Js.toUpperCase t.
Proof.
  unfold sameModuloCase. intros H.
  rewrite <- (toUpperCase_toLowerCase s), <- (toUpperCase_toLowerCase t).
  now rewrite H.
Qed.

Lemma endsWithShort_iff (uuid code : string) :
  endsWithShort uuid code = true
  <-> (exists p, uuid = p ++ code) \/ (exists p, uuid = p ++ Js.toUpperCase code).
Proof.
  unfold endsWithShort. rewrite orb_true_iff, !endsWith_iff. reflexivity.
Qed.

(** With a code without letters the test does not see the case of the
    stored type. *)
Lemma endsWithShort_caseless_code (code uuid uuid' : string) :
  caseless code -> sameModuloCase uuid uuid' ->
  endsWithShort uuid code = true -> endsWithShort uuid' code = true.
Proof.
  intros [Hu Hl] Hsame H. apply endsWithShort_iff in H.
  rewrite Hu in H. assert (exists p, uuid = p ++ code) as [p ->] by tauto.
  unfold sameModuloCase in Hsame. rewrite toLowerCase_app, Hl in Hsame.
  symmetry in Hsame.
  destruct (toLowerCase_app_inv _ _ _ Hsame) as (p' & c' & -> & _ & Hc).
  apply (toLowerCase_caseless _ _ Hc) in Hu. subst c'.
  apply endsWithShort_iff. left. now exists p'.
Qed.

(** With an upper-case stored type the test is the suffix test against the
    upper-cased code. *)
Lemma endsWithShort_upper_uuid (uuid code : string) :
  Js.toUpperCase uuid = uuid ->
  endsWithShort uuid code = Js.endsWith uuid (Js.toUpperCase code).
Proof.
  intros Hup. unfold endsWithShort.
  destruct (Js.endsWith uuid code) eqn:E; [|reflexivity]. simpl. symmetry.
  apply endsWith_iff in E. destruct E as [p E].
  assert (Hc : Js.toUpperCase code = code).
  { rewrite E in Hup. rewrite toUpperCase_app in Hup.
    apply str_app_inj_length_r in Hup; [tauto | apply toUpperCase_length]. }
  rewrite Hc, E. apply endsWith_app.
Qed.

(** No type ends in two different two-character codes. *)
Lemma endsWithShort_49_not_96 (t : string) :
  endsWithShort t "49" = true -> endsWithShort t "96" = false.
Proof.
  intros H. destruct (endsWithShort t "96") eqn:E; [|reflexivity].
  apply endsWithShort_iff in H. apply endsWithShort_iff in E. simpl in H, E.
  assert (exists p, t = p ++ "49") as [p Hp] by tauto.
  assert (exists q, t = q ++ "96") as [q Hq] by tauto.
  rewrite Hp in Hq. apply str_app_inj_length_r in Hq; [|reflexivity].
  destruct Hq as [_ Hq]. discriminate.
Qed.

(** With a code without letters, a type that ends in the code once folded
    ends in it as stored. *)
Lemma endsWithShort_folded_caseless (uuid code : string) :
  caseless code ->
  Js.endsWith (Js.toLowerCase uuid) (Js.toLowerCase code) = true ->
  endsWithShort uuid code = true.
Proof.
  intros [Hu Hl] H. rewrite Hl in H. apply endsWith_iff in H. destruct H as [p H].
  destruct (toLowerCase_app_inv _ _ _ H) as (p' & c' & -> & _ & Hc).
  apply (toLowerCase_caseless _ _ Hc) in Hu. subst c'.
  apply endsWithShort_iff. left. now exists p'.
Qed.

(** With an upper-case stored type, a type that ends in the code once
    folded is accepted. *)
Lemma endsWithShort_folded_upper (uuid code : string) :
  Js.toUpperCase uuid = uuid ->
  Js.endsWith (Js.toLowerCase uuid) (Js.toLowerCase code) = true ->
  endsWithShort uuid code = true.
Proof.
  intros Hup H. apply endsWith_iff in H. destruct H as [p H].
  apply (f_equal Js.toUpperCase) in H.
  rewrite toUpperCase_app, !toUpperCase_toLowerCase, Hup in H.
  apply endsWithShort_iff. right. now exists (Js.toUpperCase p).
Qed.

End StringFacts.

(* ================================================================= *)
(** ** The map operations *)

Section MapFacts.

Context {V : Type}.
Implicit Types (m : JsMap.t V) (k : string) (v : V).

Lemma get_set_same k v m : JsMap.get k (JsMap.set k v m) = Some v.
Proof.
  induction m as [|[k' v'] m IH]; simpl.
  - now rewrite String.eqb_refl.
  - destruct (String.eqb k k') eqn:E; simpl; rewrite E; [reflexivity | exact IH].
Qed.

Lemma get_set_other k k' v m :
  k <> k' -> JsMap.get k' (JsMap.set k v m) = JsMap.get k' m.
Proof.
  intros Hne. induction m as [|[k0 v0] m IH]; simpl.
  - destruct (String.eqb_spec k' k); [congruence | reflexivity].
  - destruct (String.eqb_spec k k0) as [->|]; simpl.
    + destruct (String.eqb_spec k' k0); [congruence | reflexivity].
    + now rewrite IH.
Qed.

Lemma set_get_id k v m : JsMap.get k m = Some v -> JsMap.set k v m = m.
Proof.
  induction m as [|[k' v'] m IH]; simpl; [discriminate|].
  destruct (String.eqb_spec k k') as [->|]; intros H.
  - now injection H as ->.
  - now rewrite IH.
Qed.

Lemma get_In k v m : JsMap.get k m = Some v -> In (k, v) m.
Proof.
  induction m as [|[k' v'] m IH]; simpl; [discriminate|].
  destruct (String.eqb_spec k k') as [->|]; intros H.
  - injection H as ->. now left.
  - right. now apply IH.
Qed.

Lemma get_None_keys k m : JsMap.get k m = None -> ~ In k (JsMap.keys m).
Proof.
  induction m as [|[k' v'] m IH]; simpl; [tauto|].
  destruct (String.eqb_spec k k') as [->|]; [discriminate|].
  intros H [Heq|Hin]; [congruence | now apply IH].
Qed.

Lemma In_keys k v m : In (k, v) m -> In k (JsMap.keys m).
Proof. intros H. apply (in_map fst) in H. exact H. Qed.

Lemma In_get k v m : JsMap.wf m -> In (k, v) m -> JsMap.get k m = Some v.
Proof.
  unfold JsMap.wf, JsMap.keys.
  induction m as [|[k' v'] m IH]; simpl; [tauto|].
  intros Hnd [Heq|Hin]; inversion Hnd as [|? ? Hnotin Hnd']; subst.
  - injection Heq as -> ->. now rewrite String.eqb_refl.
  - destruct (String.eqb_spec k k') as [->|]; [|now apply IH].
    exfalso. apply Hnotin. now apply In_keys with v.
Qed.

Lemma keys_set k v m :
  JsMap.keys (JsMap.set k v m)
  = match JsMap.get k m with
    | Some _ => JsMap.keys m
    | None => JsMap.keys m ++ [k]
    end.
Proof.
  unfold JsMap.keys. induction m as [|[k' v'] m IH]; simpl; [reflexivity|].
  destruct (String.eqb k k'); simpl; [reflexivity|].
  rewrite IH. now destruct (JsMap.get k m).
Qed.

Lemma wf_set k v m : JsMap.wf m -> JsMap.wf (JsMap.set k v m).
Proof.
  unfold JsMap.wf. intros Hnd. rewrite keys_set.
  destruct (JsMap.get k m) eqn:E; [exact Hnd|].
  apply NoDup_app; repeat split.
  - exact Hnd.
  - constructor; [simpl; tauto | constructor].
  - intros x Hx [<-|[]]. now apply (get_None_keys _ _ E).
Qed.

Lemma In_set k v m k' v' :
  In (k', v') (JsMap.set k v m) -> (k' = k /\ v' = v) \/ In (k', v') m.
Proof.
  induction m as [|[k0 v0] m IH]; simpl.
  - intros [H|[]]. injection H as <- <-. now left.
  - destruct (String.eqb_spec k k0) as [->|]; simpl.
    + intros [H|H]; [injection H as <- <-; now left | right; now right].
    + intros [H|H]; [right; now left|].
      destruct (IH H); [now left | right; now right].
Qed.

(** In a well-formed map, deleting a key drops every entry with it. *)
Lemma delete_filter k m :
  JsMap.wf m ->
  JsMap.delete k m = filter (fun e => negb (String.eqb k (fst e))) m.
Proof.
  unfold JsMap.wf, JsMap.keys.
  induction m as [|[k' v'] m IH]; simpl; [reflexivity|].
  intros Hnd. inversion Hnd as [|? ? Hnotin Hnd']; subst.
  destruct (String.eqb_spec k k') as [->|]; simpl.
  - symmetry. apply forallb_filter_id. apply forallb_forall.
    intros [k0 v0] Hin. simpl.
    destruct (String.eqb_spec k' k0) as [->|]; [|reflexivity].
    exfalso. apply Hnotin. now apply In_keys with v0.
  - now rewrite IH.
Qed.

Lemma wf_filter (f : string * V -> bool) m : JsMap.wf m -> JsMap.wf (filter f m).
Proof.
  unfold JsMap.wf, JsMap.keys. induction m as [|[k' v'] m IH]; simpl; [tauto|].
  intros Hnd. inversion Hnd as [|? ? Hnotin Hnd']; subst.
  destruct (f (k', v')); simpl; [|now apply IH].
  constructor; [|now apply IH].
  intros Hin. apply Hnotin. apply in_map_iff in Hin.
  destruct Hin as ([k0 v0] & <- & Hin). apply filter_In in Hin.
  now apply In_keys with v0.
Qed.

(** Looking a key up after a filter that only reads keys. *)
Lemma get_filter_keys (f : string -> bool) k m :
  JsMap.get k (filter (fun e => f (fst e)) m)
  = if f k then JsMap.get k m else None.
Proof.
  induction m as [|[k' v'] m IH]; simpl; [now destruct (f k)|].
  destruct (String.eqb_spec k k') as [->|Hne].
  - destruct (f k') eqn:E; simpl; [now rewrite String.eqb_refl | exact IH].
  - destruct (f k'); simpl; [|exact IH].
    destruct (String.eqb_spec k k'); [congruence | exact IH].
Qed.

Lemma filter_absent_key k m :
  ~ In k (JsMap.keys m) -> filter (fun e => String.eqb (fst e) k) m = [].
Proof.
  unfold JsMap.keys. induction m as [|[k' v'] m IH]; simpl; [reflexivity|].
  intros Hnotin. destruct (String.eqb_spec k' k) as [->|]; [tauto|].
  apply IH. tauto.
Qed.

(** A well-formed map filtered down to one of its keys is that entry. *)
Lemma filter_single_key k v m :
  JsMap.wf m -> JsMap.get k m = Some v ->
  filter (fun e => String.eqb (fst e) k) m = [(k, v)].
Proof.
  unfold JsMap.wf, JsMap.keys.
  induction m as [|[k' v'] m IH]; simpl; [discriminate|].
  intros Hnd. inversion Hnd as [|? ? Hnotin Hnd']; subst.
  rewrite (String.eqb_sym k' k).
  destruct (String.eqb_spec k k') as [->|].
  - intros H. injection H as ->. f_equal. now apply filter_absent_key.
  - now apply IH.
Qed.

End MapFacts.

(* ================================================================= *)
(** ** The steps of a discovery cycle *)

Section CycleFacts.

Lemma filter_twice {A : Type} (f g : A -> bool) (l : list A) :
  filter f (filter g l) = filter (fun x => g x && f x) l.
Proof.
  induction l as [|x l IH]; simpl; [reflexivity|].
  destruct (g x); simpl; [destruct (f x)|]; now rewrite IH.
Qed.

Lemma includes_In (l : list string) (x : string) :
  includes l x = true <-> In x l.
Proof.
  unfold includes. rewrite existsb_exists. split.
  - intros (y & Hy & E). apply String.eqb_eq in E. now subst.
  - intros H. exists x. split; [exact H | apply String.eqb_refl].
Qed.

Lemma includes_app (l l' : list string) (x : string) :
  includes (l ++ l') x = includes l x || includes l' x.
Proof. unfold includes. apply existsb_app. Qed.

(** The last loop, started on any part of the entries. *)
Lemma fold_retire (d : list string) (l : JsMap.t PlatformAccessory) :
  forall m0 e0, JsMap.wf m0 ->
    fold_left (retire d) l (m0, e0)
    = (filter (fun e => negb (existsb
                 (fun x => String.eqb (fst x) (fst e) && negb (seen d x)) l)) m0,
       e0 ++ retireEffects d l).
Proof.
  induction l as [|[id acc] l IH]; intros m0 e0 Hwf; simpl.
  - rewrite app_nil_r. f_equal. symmetry. apply forallb_filter_id.
    now apply forallb_forall.
  - unfold seen at 1 3. simpl fst.
    destruct (includes d id) eqn:E; simpl.
    + rewrite IH by exact Hwf. f_equal. apply filter_ext. intros e.
      now rewrite andb_false_r.
    + rewrite IH by (rewrite delete_filter by exact Hwf; now apply wf_filter).
      rewrite delete_filter by exact Hwf. rewrite filter_twice.
      rewrite <- app_assoc. f_equal. apply filter_ext. intros e.
      now rewrite andb_true_r, negb_orb.
Qed.

(** The last loop keeps the entries whose key was discovered and hands
    every other entry, once, to the host for removal. *)
Lemma removeStale_spec (d : list string) (m : JsMap.t PlatformAccessory) :
  JsMap.wf m -> removeStale d m = (filter (seen d) m, retireEffects d m).
Proof.
  intros Hwf. unfold removeStale. rewrite fold_retire by exact Hwf. simpl.
  f_equal. apply filter_ext_in. intros e He.
  destruct (seen d e) eqn:E.
  - apply negb_true_iff. apply not_true_is_false. intros H.
    apply existsb_exists in H. destruct H as (x & _ & H).
    apply andb_true_iff in H. destruct H as [Hk Hs].
    apply String.eqb_eq in Hk. unfold seen in *. rewrite Hk, E in Hs.
    discriminate.
  - apply negb_false_iff. apply existsb_exists. exists e. split; [exact He|].
    now rewrite String.eqb_refl, E.
Qed.

Lemma matchedAccessory_None (p : Platform) :
  matchedAccessory p = None ->
  exists msg, discoverDevices p = (p, [Log Warn msg]).
Proof.
  unfold matchedAccessory, discoverDevices.
  destruct (httpClient p); [|now eexists].
  destruct (bridgeAccessories p); [now eexists|].
  intros ->. now eexists.
Qed.

Lemma matchedAccessory_Some (p : Platform) (cand : RemoteAccessory.t) :
  matchedAccessory p = Some cand ->
  discoverDevices p
  = (let r := afterReuseOrCreate p cand in
     let s := removeStale (discoveredAfter p cand) (fst r) in
     ({| api := api p;
         accessories := fst s;
         discoveredCacheUUIDs := discoveredAfter p cand;
         bridgeAccessories := bridgeAccessories p;
         httpClient := httpClient p |},
      missingWarnings (onCharacteristic (matchedContext cand))
                      (batteryCharacteristic (matchedContext cand))
      ++ snd r ++ snd s)).
Proof.
  unfold matchedAccessory, discoverDevices, afterReuseOrCreate, discoveredAfter,
    derivedIdentifier, matchedContext.
  destruct (httpClient p); [|discriminate].
  destruct (bridgeAccessories p); [discriminate|].
  intros ->. cbv zeta.
  destruct (extractCharacteristics (RemoteAccessory.services cand)) as [on battery].
  simpl fst; simpl snd.
  destruct (reuseOrCreate _ _ _ _) as [accs eff]. simpl fst; simpl snd.
  now destruct (removeStale _ accs).
Qed.

Lemma findCandidate_In (bridge : list RemoteAccessory.t) (cand : RemoteAccessory.t) :
  findCandidate bridge = Some cand -> In cand bridge.
Proof.
  induction bridge as [|a bridge IH]; simpl; [discriminate|].
  destruct (hasSwitch a && hasBattery a).
  - intros H. injection H as ->. now left.
  - intros H. right. now apply IH.
Qed.

(** What the cycle leaves under the derived identifier. *)
Lemma reuseOrCreate_spec (cand : RemoteAccessory.t) (uuid : string)
    (ctx : Context) (accs : JsMap.t PlatformAccessory) :
  exists acc,
    fst (reuseOrCreate cand uuid ctx accs) = JsMap.set uuid acc accs
    /\ context acc = ctx
    /\ (JsMap.get uuid accs = None -> UUID acc = uuid)
    /\ (forall old, JsMap.get uuid accs = Some old ->
          acc = set_context ctx old)
    /\ (forall id, unregistrations id (snd (reuseOrCreate cand uuid ctx accs)) = O)
    /\ (forall id, registrations id (snd (reuseOrCreate cand uuid ctx accs))
                   = match JsMap.get uuid accs with
                     | Some _ => O
                     | None => if String.eqb uuid id then 1%nat else O
                     end).
Proof.
  unfold reuseOrCreate. destruct (JsMap.get uuid accs) as [existing|] eqn:E.
  - exists (set_context ctx existing). simpl. repeat split; try reflexivity.
    + discriminate.
    + now intros old [= ->].
  - eexists. simpl. repeat split; try reflexivity.
    + discriminate.
    + intros id. now destruct (String.eqb uuid id).
Qed.

Lemma unregistrations_app (id : string) (e1 e2 : list Effect) :
  unregistrations id (e1 ++ e2)
  = (unregistrations id e1 + unregistrations id e2)%nat.
Proof.
  induction e1 as [|e e1 IH]; simpl; [reflexivity|].
  destruct e; simpl; rewrite IH; lia.
Qed.

Lemma registrations_app (id : string) (e1 e2 : list Effect) :
  registrations id (e1 ++ e2)
  = (registrations id e1 + registrations id e2)%nat.
Proof.
  induction e1 as [|e e1 IH]; simpl; [reflexivity|].
  destruct e; simpl; rewrite IH; lia.
Qed.

Lemma missingWarnings_quiet (on battery : Js.value) (id : string) :
  unregistrations id (missingWarnings on battery) = O
  /\ registrations id (missingWarnings on battery) = O.
Proof.
  unfold missingWarnings.
  now destruct (negb (Js.truthy on)), (negb (Js.truthy battery)).
Qed.

Lemma retireEffects_registrations (d : list string)
    (m : JsMap.t PlatformAccessory) (id : string) :
  registrations id (retireEffects d m) = O.
Proof.
  unfold retireEffects. induction m as [|e m IH]; simpl; [reflexivity|].
  rewrite registrations_app, IH. now destruct (seen d e).
Qed.

(** The removals of the last loop, counted per identifier: the entries of
    that identifier that were not seen. *)
Lemma retireEffects_unregistrations (d : list string)
    (m : JsMap.t PlatformAccessory) (id : string) :
  (forall k a, In (k, a) m -> UUID a = k) ->
  unregistrations id (retireEffects d m)
  = List.length (filter (fun e => String.eqb (fst e) id && negb (seen d e)) m).
Proof.
  unfold retireEffects. induction m as [|[k a] m IH]; intros Hk; simpl;
    [reflexivity|].
  rewrite unregistrations_app, IH by (intros; apply Hk; now right).
  assert (UUID a = k) as Hu by (apply Hk; now left).
  unfold seen at 1 3. simpl.
  destruct (includes d k); simpl; rewrite ?andb_false_r, ?andb_true_r;
    [reflexivity|].
  rewrite Hu. now destruct (String.eqb k id).
Qed.

End CycleFacts.

(* ================================================================= *)
(** ** Retirement of local accessories *)

Section Retirement.

Lemma registry_ok_configureAccessory (acc : PlatformAccessory) (p : Platform) :
  registry_ok (accessories p) ->
  registry_ok (accessories (fst (configureAccessory acc p))).
Proof.
  intros [Hwf Hk]. split; simpl.
  - now apply wf_set.
  - intros k a Hin. apply In_set in Hin.
    destruct Hin as [[-> ->]|Hin]; [reflexivity | now apply Hk].
Qed.

(** The registry after the [if (existing) ... else ...] block. *)
Lemma registry_ok_reuseOrCreate (p : Platform) (cand : RemoteAccessory.t) :
  registry_ok (accessories p) ->
  registry_ok (fst (afterReuseOrCreate p cand)).
Proof.
  intros [Hwf Hk]. unfold afterReuseOrCreate.
  destruct (reuseOrCreate_spec cand (derivedIdentifier p cand)
              (matchedContext cand) (accessories p))
    as (x & -> & _ & Hnew & Hold & _).
  split; [now apply wf_set|].
  intros k a Hin. apply In_set in Hin.
  destruct Hin as [[-> ->]|Hin]; [|now apply Hk].
  destruct (JsMap.get (derivedIdentifier p cand) (accessories p)) as [old|] eqn:E.
  - rewrite (Hold old eq_refl). simpl. apply Hk. now apply get_In.
  - now apply Hnew.
Qed.

Lemma registry_ok_discoverDevices (p : Platform) :
  registry_ok (accessories p) ->
  registry_ok (accessories (fst (discoverDevices p))).
Proof.
  intros Hok. destruct (matchedAccessory p) as [cand|] eqn:E.
  - rewrite (matchedAccessory_Some _ _ E). cbv zeta. simpl.
    destruct (registry_ok_reuseOrCreate p cand Hok) as [Hwf Hk].
    rewrite removeStale_spec by exact Hwf. simpl. split.
    + now apply wf_filter.
    + intros k a Hin. apply filter_In in Hin. now apply Hk.
  - destruct (matchedAccessory_None _ E) as [msg ->]. exact Hok.
Qed.

End Retirement.

Lemma registry_ok_restoredPlatform : registry_ok (accessories restoredPlatform).
Proof.
  apply registry_ok_configureAccessory. split.
  - constructor.
  - intros k a [].
Qed.

Lemma registry_ok_connectedPlatform : registry_ok (accessories connectedPlatform).
Proof. exact registry_ok_restoredPlatform. Qed.

(** C1, as stated, fails: after a connection attempt without pairing data
    the cycle returns at its guard, and the accessory restored from the cache
    stays in the registry without being unregistered. *)
Lemma C1_counterexample : ~ retirement_in_every_cycle.
Proof.
  intros H.
  destruct (H unconnectedPlatform "uuid-3"%string cachedAccessory) as [Hget _].
  - exact registry_ok_restoredPlatform.
  - now left.
  - discriminate.
  - discriminate.
Qed.

(** C1, amended: a cycle that matches a remote accessory removes from the
    registry, and hands to the host for unregistration exactly once, every
    local accessory whose identifier is neither the one derived in this
    cycle nor one recorded by an earlier cycle of the same platform object;
    the other accessories stay and are not unregistered.  A cycle without a
    match (no client, no remote accessories, no accessory with both
    services) leaves the platform as it is and unregisters nothing. *)
Theorem C1_retirement (p : Platform) :
  registry_ok (accessories p) ->
  match matchedAccessory p with
  | Some cand =>
      forall id acc, In (id, acc) (accessories p) ->
        if includes (discoveredAfter p cand) id
        then (exists acc',
                JsMap.get id (accessories (fst (discoverDevices p))) = Some acc'
                /\ (id <> derivedIdentifier p cand -> acc' = acc))
             /\ unregistrations id (snd (discoverDevices p)) = O
        else JsMap.get id (accessories (fst (discoverDevices p))) = None
             /\ unregistrations id (snd (discoverDevices p)) = 1%nat
  | None =>
      fst (discoverDevices p) = p
      /\ forall id, unregistrations id (snd (discoverDevices p)) = O
  end.
Proof.
  intros Hok. destruct (matchedAccessory p) as [cand|] eqn:E.
  2:{ destruct (matchedAccessory_None _ E) as [msg ->]. now split. }
  intros id acc Hin.
  rewrite (matchedAccessory_Some _ _ E). cbv zeta. cbn [fst snd accessories].
  destruct (registry_ok_reuseOrCreate p cand Hok) as [Hwf Hk].
  rewrite removeStale_spec by exact Hwf. cbn [fst snd].
  rewrite !unregistrations_app.
  destruct (missingWarnings_quiet (onCharacteristic (matchedContext cand))
              (batteryCharacteristic (matchedContext cand)) id) as [-> _].
  rewrite (retireEffects_unregistrations _ _ _ Hk).
  unfold afterReuseOrCreate in *.
  destruct (reuseOrCreate_spec cand (derivedIdentifier p cand)
              (matchedContext cand) (accessories p))
    as (x & Hfst & _ & _ & _ & Hun & _).
  rewrite Hun. rewrite Hfst in *. simpl.
  change (seen (discoveredAfter p cand))
    with (fun e : string * PlatformAccessory =>
            includes (discoveredAfter p cand) (fst e)).
  rewrite get_filter_keys.
  destruct Hok as [Hwf0 _].
  destruct (includes (discoveredAfter p cand) id) eqn:Ei.
  - split.
    + destruct (String.eqb_spec id (derivedIdentifier p cand)) as [->|Hne].
      * exists x. rewrite get_set_same. split; [reflexivity | tauto].
      * exists acc. rewrite get_set_other by congruence.
        split; [now apply In_get | reflexivity].
    + rewrite (filter_ext _ (fun _ => false)); [now rewrite filter_false|].
      intros e. unfold seen. destruct (String.eqb_spec (fst e) id) as [->|];
        [now rewrite Ei | reflexivity].
  - split; [reflexivity|].
    assert (Hne : derivedIdentifier p cand <> id).
    { intros <-. unfold discoveredAfter in Ei. rewrite includes_app in Ei.
      simpl in Ei. rewrite String.eqb_refl in Ei. now rewrite orb_true_r in Ei. }
    rewrite (filter_ext _ (fun e => String.eqb (fst e) id)).
    + rewrite (filter_single_key id acc); [reflexivity | exact Hwf |].
      rewrite get_set_other by exact Hne. now apply In_get.
    + intros e. unfold seen. destruct (String.eqb_spec (fst e) id) as [->|];
        [now rewrite Ei | reflexivity].
Qed.

(** The accessory restored for aid 3 is retired by a cycle that matches the
    accessory of aid 5. *)
Lemma C1_retirement_witness :
  JsMap.get "uuid-3"%string (accessories (fst (discoverDevices connectedPlatform))) = None
  /\ unregistrations "uuid-3"%string (snd (discoverDevices connectedPlatform)) = 1%nat.
Proof.
  exact (C1_retirement connectedPlatform registry_ok_connectedPlatform
           "uuid-3"%string cachedAccessory (or_introl eq_refl)).
Defined.

(* ================================================================= *)
(** ** The suffix test *)

Lemma requiredCodes_caseless (code : string) :
  In code requiredCodes -> caseless code.
Proof. intros [<-|[<-|[<-|[<-|[]]]]]; split; reflexivity. Qed.

(** A case variant of a code without letters is the code. *)
Lemma sameModuloCase_caseless (code code' : string) :
  caseless code -> sameModuloCase code code' -> code' = code.
Proof.
  intros [Hu Hl] Hs. unfold sameModuloCase in Hs. rewrite Hl in Hs.
  symmetry in Hs. now apply toLowerCase_caseless.
Qed.

(** With a code without letters the test is the suffix test on the folded
    type. *)
Lemma endsWithShort_caseless_folded (uuid code : string) :
  caseless code ->
  endsWithShort uuid code = Js.endsWith (Js.toLowerCase uuid) (Js.toLowerCase code).
Proof.
  intros Hc.
  destruct (Js.endsWith (Js.toLowerCase uuid) (Js.toLowerCase code)) eqn:E.
  - now apply endsWithShort_folded_caseless.
  - destruct (endsWithShort uuid code) eqn:E'; [|reflexivity].
    apply endsWithShort_iff in E'. destruct Hc as [Hu Hl]. rewrite Hu in E'.
    assert (exists p, uuid = (p ++ code)%string) as [q ->] by tauto.
    rewrite toLowerCase_app, endsWith_app in E. discriminate.
Qed.

(** The helper folds the code only: with a code that has a letter, which
    [discoverDevices] never passes, a lower-case type is not accepted for
    the upper-case code, while an upper-case type is accepted for the
    lower-case code. *)
Example endsWithShort_folds_code_only :
  endsWithShort "0000004a" "4A" = false /\ endsWithShort "0000004A" "4a" = true.
Proof. split; reflexivity. Qed.

(** C2: for each of the short codes the matcher requires, "49", "96", "25"
    and "68", the suffix test is insensitive to letter case on both sides:
    whatever the letter case of the stored type and of the code, the test
    accepts exactly when the type ends in the code once both are folded to
    one case, and so gives the same result for any two spellings of the
    type and of the code that differ in letter case only. *)
Theorem C2_suffix_test (code : string) :
  In code requiredCodes ->
  forall uuid uuid' code',
    sameModuloCase uuid uuid' -> sameModuloCase code code' ->
    endsWithShort uuid' code'
    = Js.endsWith (Js.toLowerCase uuid) (Js.toLowerCase code)
    /\ endsWithShort uuid' code' = endsWithShort uuid code
    /\ (Js.endsWith (Js.toLowerCase uuid) (Js.toLowerCase code) = true ->
        endsWithShort uuid' code' = true).
Proof.
  intros Hin uuid uuid' code' Hu Hc.
  pose proof (requiredCodes_caseless code Hin) as Hcl.
  rewrite (sameModuloCase_caseless code code' Hcl Hc).
  assert (H1 : endsWithShort uuid' code
               = Js.endsWith (Js.toLowerCase uuid) (Js.toLowerCase code)).
  { rewrite (endsWithShort_caseless_folded uuid' code Hcl).
    unfold sameModuloCase in Hu. now rewrite Hu. }
  split; [exact H1|]. split.
  - rewrite H1. symmetry. now apply endsWithShort_caseless_folded.
  - intros H. now rewrite H1.
Qed.

(** The Switch code against a long type written in lower case and in upper
    case. *)
Lemma C2_suffix_test_witness :
  endsWithShort "BB-0000-0049" "49" = endsWithShort "bb-0000-0049" "49"
  /\ endsWithShort "BB-0000-0049" "49" = true.
Proof.
  destruct (C2_suffix_test "49"%string (or_introl eq_refl)
              "bb-0000-0049"%string "BB-0000-0049"%string "49"%string
              eq_refl eq_refl) as (_ & H2 & H3).
  split; [exact H2 | apply H3; reflexivity].
Defined.

(* ================================================================= *)
(** ** Two cycles in a row *)

Section Idempotence.

Lemma set_context_same (ctx : Context) (acc : PlatformAccessory) :
  context acc = ctx -> set_context ctx acc = acc.
Proof. intros <-. now destruct acc. Qed.

Lemma retireEffects_all_seen (d : list string) (m : JsMap.t PlatformAccessory) :
  (forall e, In e m -> seen d e = true) -> retireEffects d m = [].
Proof.
  unfold retireEffects. induction m as [|e m IH]; intros H; simpl; [reflexivity|].
  rewrite (H e) by now left. apply IH. intros e' He'. apply H. now right.
Qed.

(** The state a matching cycle leaves. *)
Lemma after_matching_cycle (p : Platform) (cand : RemoteAccessory.t) :
  JsMap.wf (accessories p) ->
  matchedAccessory p = Some cand ->
  exists acc,
    context acc = matchedContext cand
    /\ fst (discoverDevices p)
       = {| api := api p;
            accessories :=
              filter (seen (discoveredAfter p cand))
                     (JsMap.set (derivedIdentifier p cand) acc (accessories p));
            discoveredCacheUUIDs := discoveredAfter p cand;
            bridgeAccessories := bridgeAccessories p;
            httpClient := httpClient p |}
    /\ JsMap.get (derivedIdentifier p cand) (accessories (fst (discoverDevices p)))
       = Some acc
    /\ JsMap.wf (accessories (fst (discoverDevices p)))
    /\ (discoveredCacheUUIDs p = [] ->
        accessories (fst (discoverDevices p)) = [(derivedIdentifier p cand, acc)]).
Proof.
  intros Hwf E. rewrite (matchedAccessory_Some _ _ E). cbv zeta.
  cbn [fst snd accessories]. unfold afterReuseOrCreate.
  destruct (reuseOrCreate_spec cand (derivedIdentifier p cand)
              (matchedContext cand) (accessories p))
    as (x & Hfst & Hctx & _).
  rewrite Hfst. rewrite removeStale_spec by now apply wf_set.
  cbn [fst]. exists x. split; [exact Hctx|]. split; [reflexivity|].
  set (uuid := derivedIdentifier p cand).
  set (m := JsMap.set uuid x (accessories p)).
  assert (Hwfm : JsMap.wf m) by now apply wf_set.
  assert (Hget : JsMap.get uuid (filter (seen (discoveredAfter p cand)) m) = Some x).
  { change (seen (discoveredAfter p cand))
      with (fun e : string * PlatformAccessory =>
              includes (discoveredAfter p cand) (fst e)).
    rewrite get_filter_keys. unfold discoveredAfter.
    rewrite includes_app. simpl. fold uuid. rewrite String.eqb_refl, orb_true_r.
    apply get_set_same. }
  split; [exact Hget|]. split; [now apply wf_filter|].
  intros Hd. rewrite <- (filter_single_key uuid x m Hwfm (get_set_same _ _ _)).
  apply filter_ext. intros e. unfold seen, discoveredAfter. rewrite Hd. simpl.
  fold uuid. rewrite orb_false_r. reflexivity.
Qed.

(** A cycle registers at most one accessory under an identifier. *)
Lemma registrations_discoverDevices (p : Platform) (id : string) :
  JsMap.wf (accessories p) ->
  (registrations id (snd (discoverDevices p)) <= 1)%nat.
Proof.
  intros Hwf. destruct (matchedAccessory p) as [cand|] eqn:E.
  2:{ destruct (matchedAccessory_None _ E) as [msg ->]. simpl. lia. }
  rewrite (matchedAccessory_Some _ _ E). cbv zeta. cbn [fst snd].
  unfold afterReuseOrCreate.
  destruct (reuseOrCreate_spec cand (derivedIdentifier p cand)
              (matchedContext cand) (accessories p))
    as (x & Hfst & _ & _ & _ & _ & Hreg).
  rewrite Hfst, removeStale_spec by now apply wf_set.
  cbn [snd]. rewrite !registrations_app, Hreg, retireEffects_registrations.
  destruct (missingWarnings_quiet (onCharacteristic (matchedContext cand))
              (batteryCharacteristic (matchedContext cand)) id) as [_ ->].
  destruct (JsMap.get _ _); [lia|].
  destruct (String.eqb _ id); lia.
Qed.

(** A cycle that finds the matched accessory registered with the context it
    would store, and every entry of the registry among the discovered
    identifiers, leaves the registry as it is and calls neither
    [registerPlatformAccessories] nor [unregisterPlatformAccessories]. *)
Lemma settled_cycle (q : Platform) (cand : RemoteAccessory.t)
    (x : PlatformAccessory) :
  JsMap.wf (accessories q) ->
  matchedAccessory q = Some cand ->
  JsMap.get (derivedIdentifier q cand) (accessories q) = Some x ->
  context x = matchedContext cand ->
  (forall e, In e (accessories q) -> seen (discoveredAfter q cand) e = true) ->
  accessories (fst (discoverDevices q)) = accessories q
  /\ (forall id, registrations id (snd (discoverDevices q)) = O)
  /\ (forall id, unregistrations id (snd (discoverDevices q)) = O).
Proof.
  intros Hwf E Hget Hctx Hseen.
  assert (Hre : afterReuseOrCreate q cand
                = (accessories q,
                   [Log Info "Restoring existing vacuum accessory from cache:";
                    Construct (new_VacuumAccessory x);
                    UpdatePlatformAccessories [x]])).
  { unfold afterReuseOrCreate, reuseOrCreate. rewrite Hget.
    rewrite (set_context_same _ _ Hctx). now rewrite (set_get_id _ _ _ Hget). }
  rewrite (matchedAccessory_Some _ _ E). cbv zeta. rewrite Hre.
  cbn [fst snd accessories]. rewrite removeStale_spec by exact Hwf.
  cbn [fst snd]. rewrite (retireEffects_all_seen _ _ Hseen).
  split; [|split].
  - apply forallb_filter_id. now apply forallb_forall.
  - intros id. rewrite !registrations_app.
    now destruct (missingWarnings_quiet (onCharacteristic (matchedContext cand))
                    (batteryCharacteristic (matchedContext cand)) id) as [_ ->].
  - intros id. rewrite !unregistrations_app.
    now destruct (missingWarnings_quiet (onCharacteristic (matchedContext cand))
                    (batteryCharacteristic (matchedContext cand)) id) as [-> _].
Qed.

(** A platform with the same host interface, client and list of remote
    accessories matches the same accessory under the same identifier. *)
Lemma same_bridge_same_match (p q : Platform) :
  api q = api p -> httpClient q = httpClient p ->
  bridgeAccessories q = bridgeAccessories p ->
  matchedAccessory q = matchedAccessory p
  /\ forall cand, derivedIdentifier q cand = derivedIdentifier p cand.
Proof.
  intros Ha Hc Hb. unfold matchedAccessory, derivedIdentifier.
  now rewrite Ha, Hc, Hb.
Qed.

(** The cycle that follows a cycle: on the same platform object, or on a new
    one that the host has handed the registry to after a restart. *)
Lemma following_cycle (p q : Platform) :
  JsMap.wf (accessories p) ->
  api q = api p -> httpClient q = httpClient p ->
  bridgeAccessories q = bridgeAccessories p ->
  accessories q = accessories (fst (discoverDevices p)) ->
  discoveredCacheUUIDs q = discoveredCacheUUIDs (fst (discoverDevices p))
  \/ (discoveredCacheUUIDs q = [] /\ discoveredCacheUUIDs p = []) ->
  accessories (fst (discoverDevices q)) = accessories (fst (discoverDevices p))
  /\ (forall id, registrations id (snd (discoverDevices q)) = O)
  /\ (forall id, unregistrations id (snd (discoverDevices q)) = O).
Proof.
  intros Hwf Ha Hc Hb Hacc Hd.
  destruct (same_bridge_same_match p q Ha Hc Hb) as [Hm Hid].
  destruct (matchedAccessory p) as [cand|] eqn:E.
  2:{ destruct (matchedAccessory_None _ Hm) as [msg Hq]. rewrite Hq.
      simpl. now rewrite Hacc. }
  destruct (after_matching_cycle p cand Hwf E)
    as (x & Hctx & Hp1 & Hget & Hwf1 & Hfresh).
  rewrite <- Hacc in *.
  apply (settled_cycle q cand x); try assumption.
  - now rewrite Hid.
  - intros e He. unfold seen, discoveredAfter. rewrite includes_app, Hid.
    destruct Hd as [Hd|[Hd Hd0]]; rewrite Hd.
    + rewrite Hacc, Hp1 in He. cbn [accessories] in He.
      apply filter_In in He. destruct He as [_ He].
      rewrite Hp1. cbn [discoveredCacheUUIDs]. unfold seen in He. now rewrite He.
    + rewrite (Hfresh Hd0) in He. destruct He as [<-|[]]. simpl.
      now rewrite String.eqb_refl.
Qed.

Lemma get_absent {V : Type} (k : string) (m : JsMap.t V) :
  ~ In k (JsMap.keys m) -> JsMap.get k m = None.
Proof.
  unfold JsMap.keys. induction m as [|[k' v'] m IH]; simpl; [reflexivity|].
  intros H. destruct (String.eqb_spec k k') as [->|]; [tauto|].
  apply IH. tauto.
Qed.

Lemma set_absent {V : Type} (k : string) (v : V) (m : JsMap.t V) :
  JsMap.get k m = None -> JsMap.set k v m = m ++ [(k, v)].
Proof.
  induction m as [|[k' v'] m IH]; simpl; [reflexivity|].
  destruct (String.eqb k k'); [discriminate|]. intros H. now rewrite IH.
Qed.

Lemma restore_from (kept : JsMap.t PlatformAccessory) :
  (forall k a, In (k, a) kept -> UUID a = k) ->
  forall p,
    NoDup (JsMap.keys (accessories p) ++ JsMap.keys kept) ->
    let p' := fold_left (fun p entry => fst (configureAccessory (snd entry) p))
                        kept p in
    accessories p' = accessories p ++ kept
    /\ api p' = api p /\ discoveredCacheUUIDs p' = discoveredCacheUUIDs p
    /\ bridgeAccessories p' = bridgeAccessories p /\ httpClient p' = httpClient p.
Proof.
  induction kept as [|[k a] kept IH]; intros Hk p Hnd; cbv zeta.
  - simpl. now rewrite app_nil_r.
  - cbn [fold_left snd].
    assert (Hu : UUID a = k) by (apply Hk; now left).
    assert (Hnone : JsMap.get k (accessories p) = None).
    { apply get_absent. intros Hin. simpl in Hnd.
      apply NoDup_remove_2 in Hnd. apply Hnd. apply in_or_app. now left. }
    destruct (IH (fun k' a' H => Hk k' a' (or_intror H))
                 (fst (configureAccessory a p))) as (Hacc & Hrest).
    + simpl. rewrite Hu, (set_absent _ _ _ Hnone).
      unfold JsMap.keys in *. rewrite map_app, <- app_assoc. exact Hnd.
    + rewrite Hacc. split; [|exact Hrest].
      simpl. rewrite Hu, (set_absent _ _ _ Hnone). now rewrite <- app_assoc.
Qed.

(** The platform object of a restart holds the registry the host kept and
    has discovered nothing yet. *)
Lemma restore_spec (a : API) (kept : JsMap.t PlatformAccessory) :
  registry_ok kept ->
  accessories (restore a kept) = kept
  /\ api (restore a kept) = a
  /\ discoveredCacheUUIDs (restore a kept) = []
  /\ bridgeAccessories (restore a kept) = []
  /\ httpClient (restore a kept) = None.
Proof.
  intros [Hwf Hk]. unfold restore.
  destruct (restore_from kept Hk (new_Platform a)) as (H1 & H2 & H3 & H4 & H5);
    [exact Hwf|].
  repeat split; assumption.
Qed.

End Idempotence.

(** C3: a second cycle run right after a first one, on the same list of
    remote accessories, leaves the registry as the first cycle left it and
    neither registers nor unregisters anything, so that the two cycles
    together register at most one accessory under an identifier.  This holds
    for a second cycle of the same platform object and, when the first cycle
    was the first of its platform object, for the cycle of a new platform
    object to which the host has restored the registry.  When the cycles
    match an accessory, the registry holds one accessory under the derived
    identifier, with the aid and the two captured iids as its context, and
    on a platform that has not run a cycle before it holds nothing else. *)
Theorem C3_reconciliation_idempotent (p : Platform) :
  JsMap.wf (accessories p) ->
  let first := discoverDevices p in
  let second := discoverDevices (fst first) in
  accessories (fst second) = accessories (fst first)
  /\ bridgeAccessories (fst first) = bridgeAccessories p
  /\ (forall id, registrations id (snd second) = O)
  /\ (forall id, unregistrations id (snd second) = O)
  /\ (forall id, (registrations id (snd first ++ snd second) <= 1)%nat)
  /\ (forall q,
         api q = api p -> httpClient q = httpClient p ->
         bridgeAccessories q = bridgeAccessories p ->
         accessories q = accessories (fst first) ->
         discoveredCacheUUIDs q = [] -> discoveredCacheUUIDs p = [] ->
         accessories (fst (discoverDevices q)) = accessories (fst first)
         /\ (forall id, registrations id (snd (discoverDevices q)) = O)
         /\ (forall id, unregistrations id (snd (discoverDevices q)) = O))
  /\ match matchedAccessory p with
     | Some cand =>
         let uuid := derivedIdentifier p cand in
         exists acc,
           JsMap.get uuid (accessories (fst first)) = Some acc
           /\ JsMap.get uuid (accessories (fst second)) = Some acc
           /\ filter (fun e => String.eqb (fst e) uuid) (accessories (fst first))
              = [(uuid, acc)]
           /\ context acc = matchedContext cand
           /\ (discoveredCacheUUIDs p = [] -> accessories (fst first) = [(uuid, acc)])
     | None => True
     end.
Proof.
  intros Hwf first second. subst first second.
  assert (Hstate : api (fst (discoverDevices p)) = api p
                   /\ httpClient (fst (discoverDevices p)) = httpClient p
                   /\ bridgeAccessories (fst (discoverDevices p)) = bridgeAccessories p).
  { destruct (matchedAccessory p) as [cand|] eqn:E.
    - rewrite (matchedAccessory_Some _ _ E). now cbv zeta.
    - destruct (matchedAccessory_None _ E) as [msg ->]. now repeat split. }
  destruct Hstate as (Ha & Hc & Hb).
  destruct (following_cycle p (fst (discoverDevices p)) Hwf Ha Hc Hb eq_refl
              (or_introl eq_refl)) as (Hsame & Hreg & Hunreg).
  split; [exact Hsame|]. split; [exact Hb|]. split; [exact Hreg|].
  split; [exact Hunreg|]. split; [|split].
  - intros id. rewrite registrations_app, Hreg.
    pose proof (registrations_discoverDevices p id Hwf). lia.
  - intros q Hqa Hqc Hqb Hqacc Hqd Hpd.
    apply (following_cycle p q Hwf Hqa Hqc Hqb Hqacc). right. now split.
  - destruct (matchedAccessory p) as [cand|] eqn:E; [|exact I].
    destruct (after_matching_cycle p cand Hwf E)
      as (x & Hctx & _ & Hget & Hwf1 & Hfresh).
    cbv zeta. exists x. split; [exact Hget|]. split; [now rewrite Hsame|].
    split; [now apply filter_single_key|]. split; [exact Hctx | exact Hfresh].
Qed.

(** One accessory matched by two cycles in a row: same registry, context
    (5, 8, 9) under the derived identifier. *)
Lemma C3_reconciliation_idempotent_witness :
  accessories (fst (discoverDevices (fst (discoverDevices connectedPlatform))))
  = accessories (fst (discoverDevices connectedPlatform))
  /\ exists acc,
       JsMap.get "uuid-5"%string
         (accessories (fst (discoverDevices (fst (discoverDevices connectedPlatform)))))
       = Some acc
       /\ context acc = {| accessoryAid := Js.number 5;
                           onCharacteristic := Js.number 8;
                           batteryCharacteristic := Js.number 9 |}.
Proof.
  destruct (C3_reconciliation_idempotent connectedPlatform
              (proj1 registry_ok_connectedPlatform))
    as (Hsame & _ & _ & _ & _ & _ & Hmatch).
  split; [exact Hsame|].
  destruct Hmatch as (acc & _ & Hget & _ & Hctx & _).
  exists acc. split; [exact Hget | exact Hctx].
Defined.

(* ================================================================= *)
(** ** The handlers *)

Section HandlerFacts.

Implicit Types (this : VacuumAccessory) (c : option HttpClient).

Lemma setOn_begin_state c b this :
  fst (fst (setOn_begin c b this)) = set_lastOnState b this.
Proof.
  unfold setOn_begin. cbv zeta.
  destruct (_ || _); [reflexivity|]. now destruct c.
Qed.

Lemma setOn_resume_state (settled : Outcome unit) this :
  fst (setOn_resume settled this) = this.
Proof. now destruct settled. Qed.

Lemma setOn_state c b this : fst (setOn c b this) = set_lastOnState b this.
Proof.
  unfold setOn. pose proof (setOn_begin_state c b this) as H.
  destruct (setOn_begin c b this) as [[this1 eff] [r|target]]; simpl in H; subst.
  - reflexivity.
  - destruct c as [client|]; [|reflexivity].
    now destruct (setCharacteristics client target).
Qed.

(** What [setOn] asks of the bridge. *)
Lemma setOn_requests c b this :
  requests (snd (setOn c b this))
  = let ctx := context (accessory this) in
    if Js.truthy (accessoryAid ctx) && Js.truthy (onCharacteristic ctx)
    then match c with
         | Some _ =>
             [SetCharacteristics
                [(aidIid (accessoryAid ctx) (onCharacteristic ctx), Js.boolean b)]]
         | None => []
         end
    else [].
Proof.
  unfold setOn, setOn_begin. cbv zeta. simpl accessory.
  destruct (Js.truthy (accessoryAid _)), (Js.truthy (onCharacteristic _));
    simpl; try (destruct c; reflexivity).
  destruct c as [client|]; [|reflexivity].
  now destruct (setCharacteristics client _).
Qed.

Lemma getBatteryLevel_accessory c this :
  accessory (fst (fst (getBatteryLevel c this))) = accessory this.
Proof.
  unfold getBatteryLevel, getBatteryLevel_begin. cbv zeta.
  destruct (_ || _); [reflexivity|].
  destruct c as [client|]; [|reflexivity].
  unfold getBatteryLevel_resume.
  destruct (getCharacteristics client _) as [chars|]; [|reflexivity].
  now destruct (firstValue chars).
Qed.

(** A battery read that cannot address the bridge. *)
Lemma getBatteryLevel_unaddressed c this :
  missing (accessoryAid (context (accessory this)))
  \/ missing (batteryCharacteristic (context (accessory this)))
  \/ c = None ->
  exists msg,
    getBatteryLevel c this = (this, [Log Warn msg], lastBatteryLevel this).
Proof.
  unfold missing, getBatteryLevel, getBatteryLevel_begin. cbv zeta.
  intros [H|[H|H]]; rewrite H; simpl; try (now eexists).
  - rewrite orb_true_r. now eexists.
  - destruct (_ || _); now eexists.
Qed.

(** What [getBatteryLevel] asks of the bridge. *)
Lemma getBatteryLevel_requests c this :
  requests (snd (fst (getBatteryLevel c this)))
  = let ctx := context (accessory this) in
    if Js.truthy (accessoryAid ctx) && Js.truthy (batteryCharacteristic ctx)
    then match c with
         | Some _ =>
             [GetCharacteristics
                [aidIid (accessoryAid ctx) (batteryCharacteristic ctx)]]
         | None => []
         end
    else [].
Proof.
  unfold getBatteryLevel, getBatteryLevel_begin. cbv zeta.
  destruct (Js.truthy (accessoryAid _)), (Js.truthy (batteryCharacteristic _));
    simpl; try (destruct c; reflexivity).
  destruct c as [client|]; [|reflexivity].
  unfold getBatteryLevel_resume.
  destruct (getCharacteristics client _) as [chars|]; [|reflexivity].
  now destruct (firstValue chars).
Qed.

Lemma requests_app (e1 e2 : list Effect) :
  requests (e1 ++ e2) = requests e1 ++ requests e2.
Proof. apply filter_app. Qed.

Lemma requests_In (e : Effect) (eff : list Effect) :
  In e eff -> isRequest e = true -> In e (requests eff).
Proof. intros. apply filter_In. now split. Qed.

Lemma run_call_accessory (call : Call) this :
  accessory (fst (fst (run_call call this))) = accessory this.
Proof.
  destruct call as [c b| |c]; simpl.
  - pose proof (setOn_state c b this) as H.
    destruct (setOn c b this) as [this' eff]. simpl in *. now subst.
  - reflexivity.
  - pose proof (getBatteryLevel_accessory c this) as H.
    now destruct (getBatteryLevel c this) as [[this' eff] level].
Qed.

End HandlerFacts.

Section Lifetime.

Implicit Types (this : VacuumAccessory).

Ltac truthy_cases :=
  unfold missing in *;
  repeat match goal with
         | H : _ \/ _ |- _ => destruct H
         | H : Js.truthy _ = false |- _ => rewrite H in *
         end;
  rewrite ?andb_false_r in *; simpl in *.

(** One call served by a handler object. *)
Lemma run_call_step (call : Call) this :
  let ctx := context (accessory this) in
  let this1 := fst (fst (run_call call this)) in
  let eff1 := snd (fst (run_call call this)) in
  (missing (accessoryAid ctx) \/ missing (onCharacteristic ctx) ->
   forall target, ~ In (SetCharacteristics target) eff1)
  /\ (missing (accessoryAid ctx) \/ missing (batteryCharacteristic ctx) ->
      (forall ids, ~ In (GetCharacteristics ids) eff1)
      /\ lastBatteryLevel this1 = lastBatteryLevel this
      /\ forall level, snd (run_call call this) = BatteryLevel level ->
                       level = lastBatteryLevel this).
Proof.
  cbv zeta. destruct call as [c b| |c]; simpl.
  - pose proof (setOn_state c b this) as Hst.
    pose proof (setOn_requests c b this) as Hrq. cbv zeta in Hrq.
    destruct (setOn c b this) as [this' eff]. simpl in *. subst this'.
    split.
    + intros Hm target Hin. apply requests_In in Hin; [|reflexivity].
      rewrite Hrq in Hin. truthy_cases; exact Hin.
    + intros _. split; [|split; [reflexivity | discriminate]].
      intros ids Hin. apply requests_In in Hin; [|reflexivity].
      rewrite Hrq in Hin.
      destruct (_ && _); [destruct c|]; simpl in Hin;
        try tauto. destruct Hin as [Hin|[]]. discriminate.
  - split; [tauto|]. intros _. split; [tauto|]. split; [reflexivity|].
    discriminate.
  - pose proof (getBatteryLevel_requests c this) as Hrq. cbv zeta in Hrq.
    split.
    + intros _ target Hin.
      destruct (getBatteryLevel c this) as [[this' eff] level]. simpl in *.
      apply requests_In in Hin; [|reflexivity]. rewrite Hrq in Hin.
      destruct (_ && _); [destruct c|]; simpl in Hin;
        try tauto. destruct Hin as [Hin|[]]. discriminate.
    + intros Hm.
      destruct (getBatteryLevel_unaddressed c this) as [msg ->].
      { unfold missing in *. tauto. }
      simpl. split; [|split; [reflexivity | now intros level [= ->]]].
      intros ids [H|[]]. discriminate.
Qed.

(** An accessory found in the registry after a cycle is as it was before
    the cycle, or the cycle constructed a fresh handler object for it. *)
Lemma discoverDevices_rebinds (p : Platform) (id : string) (acc : PlatformAccessory) :
  JsMap.wf (accessories p) ->
  JsMap.get id (accessories (fst (discoverDevices p))) = Some acc ->
  JsMap.get id (accessories p) = Some acc
  \/ In (Construct (new_VacuumAccessory acc)) (snd (discoverDevices p)).
Proof.
  intros Hwf. destruct (matchedAccessory p) as [cand|] eqn:E.
  2:{ destruct (matchedAccessory_None _ E) as [msg ->]. now left. }
  rewrite (matchedAccessory_Some _ _ E). cbv zeta. cbn [fst snd accessories].
  unfold afterReuseOrCreate, reuseOrCreate.
  set (uuid := derivedIdentifier p cand).
  destruct (JsMap.get uuid (accessories p)) as [existing|] eqn:G;
    cbn [fst snd]; rewrite removeStale_spec by (now apply wf_set);
    cbn [fst snd];
    change (seen (discoveredAfter p cand))
      with (fun e : string * PlatformAccessory =>
              includes (discoveredAfter p cand) (fst e));
    rewrite get_filter_keys;
    (destruct (includes (discoveredAfter p cand) id); [|discriminate]);
    (destruct (String.eqb_spec uuid id) as [<-|Hne];
     [ rewrite get_set_same; intros [= <-]; right;
       apply in_or_app; right; apply in_or_app; left; simpl; tauto
     | rewrite get_set_other by exact Hne; intros Hget; left; exact Hget ]).
Qed.

End Lifetime.

(** C4: whatever calls a handler object serves, with whatever client and
    whatever answers of the bridge, none of them changes the addresses in the
    context of its accessory.  So when the aid or the On iid is missing,
    no write of its life reaches the bridge, and when the aid or the
    BatteryLevel iid is missing, no battery read of its life reaches the
    bridge and each returns the level cached at the start.  A discovery
    cycle, the one writer of contexts, leaves every accessory of the
    registry as it was or constructs a fresh handler object for it. *)
Theorem C4_degraded_for_life (this : VacuumAccessory) (calls : list Call) :
  let ctx := context (accessory this) in
  let this' := fst (fst (run_calls calls this)) in
  let eff := snd (fst (run_calls calls this)) in
  let answers := snd (run_calls calls this) in
  context (accessory this') = ctx
  /\ (missing (accessoryAid ctx) \/ missing (onCharacteristic ctx) ->
      forall target, ~ In (SetCharacteristics target) eff)
  /\ (missing (accessoryAid ctx) \/ missing (batteryCharacteristic ctx) ->
      (forall ids, ~ In (GetCharacteristics ids) eff)
      /\ lastBatteryLevel this' = lastBatteryLevel this
      /\ forall level, In (BatteryLevel level) answers ->
                       level = lastBatteryLevel this)
  /\ (forall p id acc,
         JsMap.wf (accessories p) ->
         JsMap.get id (accessories (fst (discoverDevices p))) = Some acc ->
         JsMap.get id (accessories p) = Some acc
         \/ In (Construct (new_VacuumAccessory acc)) (snd (discoverDevices p))).
Proof.
  cbv zeta.
  assert (forall A B C D : Prop, A /\ B /\ C -> D -> A /\ B /\ C /\ D) as Hadd
    by tauto.
  apply Hadd; [|exact discoverDevices_rebinds]. clear Hadd. revert this.
  induction calls as [|call calls IH]; intros this.
  - simpl. split; [reflexivity|]. split; [tauto|]. intros _.
    split; [tauto|]. split; [reflexivity | tauto].
  - pose proof (run_call_accessory call this) as Hacc.
    pose proof (run_call_step call this) as Hstep. cbv zeta in Hstep.
    simpl run_calls.
    destruct (run_call call this) as [[this1 eff1] a]. simpl in Hacc, Hstep.
    specialize (IH this1).
    destruct (run_calls calls this1) as [[this2 eff2] answers]. simpl in IH |- *.
    rewrite Hacc in IH. destruct IH as (IHctx & IHset & IHget).
    destruct Hstep as (Hset & Hget).
    split; [exact IHctx|]. split.
    + intros Hm target Hin. apply in_app_or in Hin. destruct Hin as [Hin|Hin].
      * exact (Hset Hm target Hin).
      * exact (IHset Hm target Hin).
    + intros Hm. destruct (Hget Hm) as (Hg1 & Hl1 & Ha1).
      destruct (IHget Hm) as (Hg2 & Hl2 & Ha2).
      split; [|split].
      * intros ids Hin. apply in_app_or in Hin. destruct Hin as [Hin|Hin].
        -- exact (Hg1 ids Hin).
        -- exact (Hg2 ids Hin).
      * congruence.
      * intros level [->|Hin]; [now apply Ha1|].
        rewrite <- Hl1. now apply Ha2.
Qed.

(** The calls of [exampleCalls] on a handler object without iids: nothing is
    sent to the bridge and the battery reads give 100. *)
Lemma C4_degraded_for_life_witness :
  (forall target,
      ~ In (SetCharacteristics target) (snd (fst (run_calls exampleCalls degradedInstance))))
  /\ (forall ids,
         ~ In (GetCharacteristics ids) (snd (fst (run_calls exampleCalls degradedInstance))))
  /\ (forall level,
         In (BatteryLevel level) (snd (run_calls exampleCalls degradedInstance)) ->
         level = 100).
Proof.
  destruct (C4_degraded_for_life degradedInstance exampleCalls)
    as (_ & Hset & Hget & _).
  split.
  - apply Hset. right. reflexivity.
  - destruct Hget as (Hg & _ & Ha); [right; reflexivity|]. split; assumption.
Defined.

(* ================================================================= *)
(** ** The matcher *)

Section Matcher.

Lemma covers_iff (acc : RemoteAccessory.t) :
  hasSwitch acc && hasBattery acc = true <-> covers acc.
Proof.
  unfold hasSwitch, hasBattery, covers.
  rewrite andb_true_iff, !existsb_exists. reflexivity.
Qed.

Lemma scanCharacteristics_app (code : string)
    (l1 l2 : list RemoteCharacteristic.t) (captured : Js.value) :
  scanCharacteristics code (l1 ++ l2) captured
  = scanCharacteristics code l2 (scanCharacteristics code l1 captured).
Proof. unfold scanCharacteristics. apply fold_left_app. Qed.

(** Characteristics of other types leave the variable as it is. *)
Lemma scanCharacteristics_none (code : string)
    (chs : list RemoteCharacteristic.t) :
  (forall c, In c chs -> endsWithShort (RemoteCharacteristic.type c) code = false) ->
  forall captured, scanCharacteristics code chs captured = captured.
Proof.
  unfold scanCharacteristics.
  induction chs as [|c chs IH]; intros H captured; simpl; [reflexivity|].
  rewrite (H c) by now left. apply IH. intros c' Hc'. apply H. now right.
Qed.

(** The scan of one service ends with the iid of the last characteristic
    of the wanted type, whatever the variable held before. *)
Lemma scanCharacteristics_last (code : string) (svc : RemoteService.t)
    (ch : RemoteCharacteristic.t) (captured : Js.value) :
  lastMatching code svc ch ->
  scanCharacteristics code (RemoteService.characteristics svc) captured
  = Js.number (RemoteCharacteristic.iid ch).
Proof.
  intros (before & after & -> & Hch & Hafter).
  rewrite scanCharacteristics_app.
  change (ch :: after) with ([ch] ++ after).
  rewrite scanCharacteristics_app, scanCharacteristics_none by exact Hafter.
  unfold scanCharacteristics. simpl. now rewrite Hch.
Qed.

Lemma lastOfSeveral_lastMatching (code : string) (svc : RemoteService.t)
    (ch : RemoteCharacteristic.t) :
  lastOfSeveral code svc ch -> lastMatching code svc ch.
Proof.
  intros (before & after & H1 & H2 & _ & H3). now exists before, after.
Qed.

(** Later services that capture nothing for On keep the variable. *)
Lemma scan_services_keep_on (svcs : list RemoteService.t) :
  (forall s, In s svcs -> endsWithShort (RemoteService.type s) "49" = true ->
             noneMatching "25" s) ->
  forall captured, fst (fold_left scanService svcs captured) = fst captured.
Proof.
  induction svcs as [|s svcs IH]; intros H [on battery]; simpl; [reflexivity|].
  rewrite IH by (intros; apply H; [now right | assumption]).
  destruct (endsWithShort (RemoteService.type s) "49") eqn:E; simpl.
  - apply scanCharacteristics_none. apply H; [now left | exact E].
  - now destruct (endsWithShort (RemoteService.type s) "96").
Qed.

(** Likewise for BatteryLevel. *)
Lemma scan_services_keep_battery (svcs : list RemoteService.t) :
  (forall s, In s svcs -> endsWithShort (RemoteService.type s) "96" = true ->
             noneMatching "68" s) ->
  forall captured, snd (fold_left scanService svcs captured) = snd captured.
Proof.
  induction svcs as [|s svcs IH]; intros H [on battery]; simpl; [reflexivity|].
  rewrite IH by (intros; apply H; [now right | assumption]).
  destruct (endsWithShort (RemoteService.type s) "49") eqn:E; simpl;
    [reflexivity|].
  destruct (endsWithShort (RemoteService.type s) "96") eqn:E'; simpl;
    [|reflexivity].
  apply scanCharacteristics_none. apply H; [now left | exact E'].
Qed.

End Matcher.

Lemma findCandidate_first (bridge : list RemoteAccessory.t) :
  match findCandidate bridge with
  | Some acc =>
      covers acc
      /\ exists before after,
           bridge = before ++ acc :: after
           /\ forall a, In a before -> ~ covers a
  | None => forall a, In a bridge -> ~ covers a
  end.
Proof.
  induction bridge as [|a bridge IH]; simpl; [tauto|].
  destruct (hasSwitch a && hasBattery a) eqn:E.
  - split; [now apply covers_iff|]. exists [], bridge. now split.
  - assert (Ha : ~ covers a).
    { intros H. apply covers_iff in H. congruence. }
    destruct (findCandidate bridge) as [acc|].
    + destruct IH as (Hc & before & after & -> & Hb). split; [exact Hc|].
      exists (a :: before), after. split; [reflexivity|].
      intros a' [<-|Hin]; [exact Ha | now apply Hb].
    + intros a' [<-|Hin]; [exact Ha | now apply IH].
Qed.

(** C5: the matcher selects an accessory that has a service of type "49"
    and a service of type "96" and that is preceded, in the order of the
    list, only by accessories that lack one of them; it selects nothing
    exactly when every accessory lacks one of them.  The accessory a
    discovery cycle works on is the one so selected from the list the
    platform holds. *)
Theorem C5_first_match_wins (p : Platform) :
  match matchedAccessory p with
  | Some acc =>
      covers acc
      /\ exists before after,
           bridgeAccessories p = before ++ acc :: after
           /\ forall a, In a before -> ~ covers a
  | None =>
      httpClient p = None \/ forall a, In a (bridgeAccessories p) -> ~ covers a
  end
  /\ forall bridge,
       match findCandidate bridge with
       | Some acc =>
           covers acc
           /\ exists before after,
                bridge = before ++ acc :: after
                /\ forall a, In a before -> ~ covers a
       | None => forall a, In a bridge -> ~ covers a
       end.
Proof.
  split; [|exact findCandidate_first].
  unfold matchedAccessory. destruct (httpClient p); [|now left].
  pose proof (findCandidate_first (bridgeAccessories p)) as H.
  destruct (bridgeAccessories p) as [|a bridge]; [right; intros a []|].
  destruct (findCandidate (a :: bridge)); [exact H | now right].
Qed.

(** C9, as stated, fails: in [twoSwitches] the first Switch service holds the
    On characteristic twice, iid 2 last, yet the iid captured is 3, from the
    second Switch service. *)
Lemma C9_counterexample : ~ last_duplicate_of_any_service_wins.
Proof.
  intros H.
  destruct (H twoSwitches
              {| RemoteService.type := "49";
                 RemoteService.name := None;
                 RemoteService.characteristics :=
                   [ {| RemoteCharacteristic.type := "25"; RemoteCharacteristic.iid := 1 |};
                     {| RemoteCharacteristic.type := "25"; RemoteCharacteristic.iid := 2 |} ] |}
              {| RemoteCharacteristic.type := "25"; RemoteCharacteristic.iid := 2 |})
    as [Hon _].
  - reflexivity.
  - now left.
  - assert (fst (extractCharacteristics (RemoteAccessory.services twoSwitches))
            = Js.number 2) as Habs; [|discriminate Habs].
    apply Hon; [reflexivity|].
    exists [ {| RemoteCharacteristic.type := "25"; RemoteCharacteristic.iid := 1 |} ], [].
    split; [reflexivity|]. split; [reflexivity|]. split.
    + eexists. split; [now left | reflexivity].
    + intros c [].
Qed.

(** C9, amended: the scan of a service leaves in the variable the iid of the
    last characteristic of the wanted type, whatever it held before; and the
    iid captured for the accessory is the one of the last such
    characteristic of the last service of the matching type that holds one,
    that is, of a matching service behind which no service of the same type
    holds a characteristic of the wanted type. *)
Theorem C9_last_match_wins (svc : RemoteService.t) (ch : RemoteCharacteristic.t) :
  (forall code captured,
      lastMatching code svc ch ->
      scanCharacteristics code (RemoteService.characteristics svc) captured
      = Js.number (RemoteCharacteristic.iid ch))
  /\ (forall before after,
         endsWithShort (RemoteService.type svc) "49" = true ->
         lastMatching "25" svc ch ->
         (forall s, In s after ->
                    endsWithShort (RemoteService.type s) "49" = true ->
                    noneMatching "25" s) ->
         fst (extractCharacteristics (before ++ svc :: after))
         = Js.number (RemoteCharacteristic.iid ch))
  /\ (forall before after,
         endsWithShort (RemoteService.type svc) "96" = true ->
         lastMatching "68" svc ch ->
         (forall s, In s after ->
                    endsWithShort (RemoteService.type s) "96" = true ->
                    noneMatching "68" s) ->
         snd (extractCharacteristics (before ++ svc :: after))
         = Js.number (RemoteCharacteristic.iid ch)).
Proof.
  split; [|split].
  - intros code captured H. now apply scanCharacteristics_last.
  - intros before after Hsvc Hlast Hafter.
    unfold extractCharacteristics. rewrite fold_left_app. simpl.
    rewrite scan_services_keep_on by exact Hafter.
    destruct (fold_left scanService before _) as [on battery].
    unfold scanService. rewrite Hsvc. simpl.
    now apply scanCharacteristics_last.
  - intros before after Hsvc Hlast Hafter.
    unfold extractCharacteristics. rewrite fold_left_app. simpl.
    rewrite scan_services_keep_battery by exact Hafter.
    destruct (fold_left scanService before _) as [on battery].
    unfold scanService. rewrite Hsvc.
    destruct (endsWithShort (RemoteService.type svc) "49") eqn:E.
    + apply endsWithShort_49_not_96 in E. congruence.
    + simpl. now apply scanCharacteristics_last.
Qed.

(** In [twoSwitches] the second Switch service is the last one that holds
    On, at iid 3. *)
Lemma C9_last_match_wins_witness :
  fst (extractCharacteristics (RemoteAccessory.services twoSwitches)) = Js.number 3.
Proof.
  refine (proj1 (proj2
    (C9_last_match_wins
       {| RemoteService.type := "49";
          RemoteService.name := None;
          RemoteService.characteristics :=
            [ {| RemoteCharacteristic.type := "25"; RemoteCharacteristic.iid := 3 |} ] |}
       {| RemoteCharacteristic.type := "25"; RemoteCharacteristic.iid := 3 |}))
    [ {| RemoteService.type := "49";
         RemoteService.name := None;
         RemoteService.characteristics :=
           [ {| RemoteCharacteristic.type := "25"; RemoteCharacteristic.iid := 1 |};
             {| RemoteCharacteristic.type := "25"; RemoteCharacteristic.iid := 2 |} ] |} ]
    [ {| RemoteService.type := "96";
         RemoteService.name := None;
         RemoteService.characteristics :=
           [ {| RemoteCharacteristic.type := "68"; RemoteCharacteristic.iid := 4 |} ] |} ]
    eq_refl _ _).
  - exists [], []. split; [reflexivity|]. split; [reflexivity|]. intros c [].
  - intros s [<-|[]] Hs. discriminate Hs.
Defined.

(* ================================================================= *)
(** ** Properties of the handlers *)

(** C6: the only request [setOn] sends is a batch set with the one key
    "<aid>.<iid>" made of the aid and the On iid of the context, and the only
    request [getBatteryLevel] sends is a batch get of the one token made of
    the aid and the BatteryLevel iid; either is sent only when both
    components are resolved and a client exists.  With aid 5 and On iid 8,
    a write of [true] sends the set of "5.8" to [true]. *)
Theorem C6_requests_addressed (c : option HttpClient) (b : bool)
    (this : VacuumAccessory) :
  let ctx := context (accessory this) in
  requests (snd (setOn c b this))
  = (if Js.truthy (accessoryAid ctx) && Js.truthy (onCharacteristic ctx)
     then match c with
          | Some _ =>
              [SetCharacteristics
                 [((Js.toString (accessoryAid ctx) ++ "."
                    ++ Js.toString (onCharacteristic ctx))%string,
                   Js.boolean b)]]
          | None => []
          end
     else [])
  /\ requests (snd (fst (getBatteryLevel c this)))
     = (if Js.truthy (accessoryAid ctx) && Js.truthy (batteryCharacteristic ctx)
        then match c with
             | Some _ =>
                 [GetCharacteristics
                    [(Js.toString (accessoryAid ctx) ++ "."
                      ++ Js.toString (batteryCharacteristic ctx))%string]]
             | None => []
             end
        else [])
  /\ (forall client,
         requests (snd (setOn (Some client) true boundInstance))
         = [SetCharacteristics [("5.8"%string, Js.boolean true)]])
  /\ (forall client,
         requests (snd (fst (getBatteryLevel (Some client) boundInstance)))
         = [GetCharacteristics ["5.9"%string]]).
Proof.
  cbv zeta. split; [apply setOn_requests|]. split; [apply getBatteryLevel_requests|].
  split; intros client.
  - now rewrite setOn_requests.
  - now rewrite getBatteryLevel_requests.
Qed.

(** C7: a write stores the value in [lastOnState] before the request to the
    bridge is sent (the part of [setOn] that runs up to its [await] has
    stored it and has sent nothing); a read of the switch at that point
    returns the value and sends nothing; and however the request settles, or
    when it is skipped, the value stays. *)
Theorem C7_optimistic_write (c : option HttpClient) (b : bool)
    (this : VacuumAccessory) :
  let this1 := fst (fst (setOn_begin c b this)) in
  lastOnState this1 = b
  /\ requests (snd (fst (setOn_begin c b this))) = []
  /\ getOn this1 = (this1, [], b)
  /\ (forall settled,
         lastOnState (fst (setOn_resume settled this1)) = b
         /\ snd (getOn (fst (setOn_resume settled this1))) = b)
  /\ lastOnState (fst (setOn c b this)) = b
  /\ snd (getOn (fst (setOn c b this))) = b
  /\ (forall this0, getOn this0 = (this0, [], lastOnState this0)).
Proof.
  cbv zeta. rewrite setOn_begin_state, setOn_state. split; [reflexivity|].
  split.
  - unfold setOn_begin. cbv zeta. destruct (_ || _); [reflexivity|].
    now destruct c.
  - split; [reflexivity|]. split; [|now repeat split].
    intros settled. rewrite setOn_resume_state. now split.
Qed.

(** C8: a battery read always returns, and what it returns is the cached
    level as the read leaves it.  Without both address components or without
    a client the object is unchanged and no request is sent; the first such
    read of a fresh object gives 100.  Otherwise one get is sent: a numeric
    first value becomes the cached level and is returned; a rejected
    request, an empty reply or a first value that is not a number leave the
    object unchanged, so the cached level is returned. *)
Theorem C8_battery_read_total (c : option HttpClient) (this : VacuumAccessory) :
  let ctx := context (accessory this) in
  let this' := fst (fst (getBatteryLevel c this)) in
  let level := snd (getBatteryLevel c this) in
  level = lastBatteryLevel this'
  /\ (missing (accessoryAid ctx) \/ missing (batteryCharacteristic ctx) \/ c = None ->
      this' = this /\ level = lastBatteryLevel this
      /\ requests (snd (fst (getBatteryLevel c this))) = [])
  /\ (forall acc, lastBatteryLevel (new_VacuumAccessory acc) = 100)
  /\ (forall client,
         c = Some client ->
         Js.truthy (accessoryAid ctx) = true ->
         Js.truthy (batteryCharacteristic ctx) = true ->
         match getCharacteristics client
                 [aidIid (accessoryAid ctx) (batteryCharacteristic ctx)] with
         | Resolved characteristics =>
             match firstValue characteristics with
             | Js.number n => this' = set_lastBatteryLevel n this /\ level = n
             | _ => this' = this /\ level = lastBatteryLevel this
             end
         | Rejected => this' = this /\ level = lastBatteryLevel this
         end).
Proof.
  cbv zeta. split; [|split; [|split]].
  - unfold getBatteryLevel, getBatteryLevel_begin. cbv zeta.
    destruct (_ || _); [reflexivity|].
    destruct c as [client|]; [|reflexivity].
    unfold getBatteryLevel_resume.
    destruct (getCharacteristics client _) as [chars|]; [|reflexivity].
    now destruct (firstValue chars).
  - intros H. destruct (getBatteryLevel_unaddressed c this H) as [msg ->].
    now repeat split.
  - reflexivity.
  - intros client -> Ha Hb.
    unfold getBatteryLevel, getBatteryLevel_begin. cbv zeta.
    rewrite Ha, Hb. simpl. unfold getBatteryLevel_resume.
    destruct (getCharacteristics client _) as [chars|]; [|now split].
    destruct (firstValue chars); now split.
Qed.

(** C10: 0 is falsy, like [undefined].  With an aid or an On iid that the
    handlers take for missing, 0 included, a write stores the value, logs
    the warning and sends nothing; with such an aid or BatteryLevel iid a
    battery read logs the warning, sends nothing and returns the cached
    level. *)
Theorem C10_zero_is_unresolved (c : option HttpClient) (b : bool)
    (this : VacuumAccessory) :
  let ctx := context (accessory this) in
  missing (Js.number 0) /\ missing Js.undefined
  /\ (missing (accessoryAid ctx) \/ missing (onCharacteristic ctx) ->
      setOn c b this
      = (set_lastOnState b this,
         [Log Info "Setting vacuum power state to";
          Log Warn "On characteristic identifiers not configured for this accessory"]))
  /\ (missing (accessoryAid ctx) \/ missing (batteryCharacteristic ctx) ->
      getBatteryLevel c this
      = (this,
         [Log Warn "Battery characteristic identifiers not configured for this accessory"],
         lastBatteryLevel this)).
Proof.
  cbv zeta. unfold missing. split; [reflexivity|]. split; [reflexivity|]. split.
  - unfold setOn, setOn_begin. cbv zeta. simpl accessory.
    intros [H|H]; rewrite H; simpl; rewrite ?orb_true_r; now destruct c.
  - unfold getBatteryLevel, getBatteryLevel_begin. cbv zeta.
    intros [H|H]; rewrite H; simpl; rewrite ?orb_true_r; now destruct c.
Qed.

(** A read that finds 42, a read against a failing client after it, and a
    first read without a BatteryLevel iid. *)
Lemma C8_battery_read_total_witness :
  snd (getBatteryLevel (Some (exampleClient [])) boundInstance) = 42
  /\ snd (getBatteryLevel (Some failingClient)
            (set_lastBatteryLevel 42 boundInstance)) = 42
  /\ snd (getBatteryLevel (Some (exampleClient [])) degradedInstance) = 100.
Proof.
  split; [|split].
  - destruct (C8_battery_read_total (Some (exampleClient [])) boundInstance)
      as (_ & _ & _ & H).
    exact (proj2 (H (exampleClient []) eq_refl eq_refl eq_refl)).
  - destruct (C8_battery_read_total (Some failingClient)
                (set_lastBatteryLevel 42 boundInstance))
      as (_ & _ & _ & H).
    exact (proj2 (H failingClient eq_refl eq_refl eq_refl)).
  - destruct (C8_battery_read_total (Some (exampleClient [])) degradedInstance)
      as (_ & H & _).
    exact (proj1 (proj2 (H (or_intror (or_introl eq_refl))))).
Defined.

(** An accessory whose iids are 0: the write and the battery read stay
    local although a working client exists. *)
Lemma C10_zero_is_unresolved_witness :
  setOn (Some (exampleClient [])) true zeroIidInstance
  = (set_lastOnState true zeroIidInstance,
     [Log Info "Setting vacuum power state to";
      Log Warn "On characteristic identifiers not configured for this accessory"])
  /\ getBatteryLevel (Some (exampleClient [])) zeroIidInstance
     = (zeroIidInstance,
        [Log Warn "Battery characteristic identifiers not configured for this accessory"],
        100).
Proof.
  destruct (C10_zero_is_unresolved (Some (exampleClient [])) true zeroIidInstance)
    as (_ & _ & Hset & Hget).
  split.
  - apply Hset. right. reflexivity.
  - apply Hget. right. reflexivity.
Defined.

(** The launch scenario without pairing data: the connection attempt only
    warns, the cycle returns at its guard, the platform is as the host
    restored it. *)
Example launch_without_pairing (newHttpClient : Outcome HttpClient) :
  fst (didFinishLaunching (Some configWithoutPairing) newHttpClient restoredPlatform)
  = restoredPlatform.
Proof. reflexivity. Qed.

(** The end-to-end scenario: one accessory of aid 5 with On at iid 8 and
    BatteryLevel at iid 9 is matched, and a new local accessory is registered
    with that context. *)
Example launch_with_vacuum :
  matchedAccessory connectedPlatform = Some exampleVacuum
  /\ matchedContext exampleVacuum
     = {| accessoryAid := Js.number 5;
          onCharacteristic := Js.number 8;
          batteryCharacteristic := Js.number 9 |}
  /\ registrations "uuid-5" (snd (discoverDevices connectedPlatform)) = 1%nat.
Proof. repeat split. Qed.

(** A restart after the first cycle: the host restores the registry to a new
    platform object, which connects to the same bridge and runs its cycle;
    the registry is as the first cycle left it. *)
Example restart_after_first_cycle :
  let first := fst (discoverDevices connectedPlatform) in
  let restarted :=
    fst (connectToBridge (Some fullConfig)
           (Resolved (exampleClient [exampleVacuum]))
           (restore exampleApi (accessories first))) in
  accessories (fst (discoverDevices restarted)) = accessories first
  /\ registrations "uuid-5" (snd (discoverDevices restarted)) = O.
Proof. split; reflexivity. Qed.

(* ================================================================= *)
(** ** Further properties of the platform *)

Section PlatformFacts.

Lemma discoverDevices_frame (p : Platform) :
  api (fst (discoverDevices p)) = api p
  /\ httpClient (fst (discoverDevices p)) = httpClient p
  /\ bridgeAccessories (fst (discoverDevices p)) = bridgeAccessories p
  /\ discoveredCacheUUIDs (fst (discoverDevices p))
     = match matchedAccessory p with
       | Some cand => discoveredCacheUUIDs p ++ [derivedIdentifier p cand]
       | None => discoveredCacheUUIDs p
       end.
Proof.
  destruct (matchedAccessory p) as [cand|] eqn:E.
  - rewrite (matchedAccessory_Some _ _ E). now cbv zeta.
  - destruct (matchedAccessory_None _ E) as [msg ->]. now repeat split.
Qed.

Lemma connectToBridge_frame (controller : option ControllerConfig.t)
    (newHttpClient : Outcome HttpClient) (p : Platform) :
  api (fst (connectToBridge controller newHttpClient p)) = api p
  /\ accessories (fst (connectToBridge controller newHttpClient p)) = accessories p
  /\ discoveredCacheUUIDs (fst (connectToBridge controller newHttpClient p))
     = discoveredCacheUUIDs p.
Proof.
  unfold connectToBridge. destruct controller as [cfg|]; [|now repeat split].
  destruct (_ || _); [now repeat split|].
  destruct newHttpClient as [client|]; [|now repeat split].
  destruct (getAccessories client); now repeat split.
Qed.

Lemma requests_retireEffects (d : list string) (m : JsMap.t PlatformAccessory) :
  requests (retireEffects d m) = [].
Proof.
  unfold retireEffects. induction m as [|e m IH]; simpl; [reflexivity|].
  rewrite requests_app, IH. now destruct (seen d e).
Qed.

Lemma requests_missingWarnings (on battery : Js.value) :
  requests (missingWarnings on battery) = [].
Proof.
  unfold missingWarnings.
  now destruct (negb (Js.truthy on)), (negb (Js.truthy battery)).
Qed.

Lemma filter_registry_app (e1 e2 : list Effect) :
  filter isRegistryCall (e1 ++ e2)
  = filter isRegistryCall e1 ++ filter isRegistryCall e2.
Proof. apply filter_app. Qed.

Lemma updated_app (e1 e2 : list Effect) :
  updated (e1 ++ e2) = updated e1 ++ updated e2.
Proof.
  induction e1 as [|e e1 IH]; simpl; [reflexivity|].
  destruct e; simpl; rewrite ?IH, ?app_assoc; reflexivity.
Qed.

Lemma registered_app (e1 e2 : list Effect) :
  registered (e1 ++ e2) = registered e1 ++ registered e2.
Proof.
  induction e1 as [|e e1 IH]; simpl; [reflexivity|].
  destruct e; simpl; rewrite ?IH, ?app_assoc; reflexivity.
Qed.

Lemma constructed_app (e1 e2 : list Effect) :
  constructed (e1 ++ e2) = constructed e1 ++ constructed e2.
Proof.
  induction e1 as [|e e1 IH]; simpl; [reflexivity|].
  destruct e; simpl; rewrite ?IH; reflexivity.
Qed.

Lemma retireEffects_quiet (d : list string) (m : JsMap.t PlatformAccessory) :
  updated (retireEffects d m) = []
  /\ registered (retireEffects d m) = []
  /\ constructed (retireEffects d m) = [].
Proof.
  unfold retireEffects. induction m as [|e m IH]; simpl; [now repeat split|].
  rewrite updated_app, registered_app, constructed_app.
  destruct IH as (-> & -> & ->). now destruct (seen d e).
Qed.

Lemma missingWarnings_silent (on battery : Js.value) :
  updated (missingWarnings on battery) = []
  /\ registered (missingWarnings on battery) = []
  /\ constructed (missingWarnings on battery) = [].
Proof.
  unfold missingWarnings.
  now destruct (negb (Js.truthy on)), (negb (Js.truthy battery)).
Qed.

End PlatformFacts.

Lemma connectToBridge_keeps_guard (controller : option ControllerConfig.t)
    (newHttpClient : Outcome HttpClient) (p : Platform) :
  (httpClient p = None -> bridgeAccessories p = []) ->
  httpClient (fst (connectToBridge controller newHttpClient p)) = None ->
  bridgeAccessories (fst (connectToBridge controller newHttpClient p)) = [].
Proof.
  intros Hc. unfold connectToBridge. destruct controller as [cfg|]; [|exact Hc].
  destruct (_ || _); [exact Hc|].
  destruct newHttpClient as [client|]; [|exact Hc].
  destruct (getAccessories client); discriminate.
Qed.

(** X1: a connection attempt never touches the registry, the discovered
    identifiers or the host interface.  When the configuration has its four
    fields truthy and the client could be constructed, the client is stored,
    also when the listing of the accessories fails, and the list of remote
    accessories is replaced by a listing that succeeded and kept when the
    listing failed.  In every other case the whole platform is left as it
    is. *)
Theorem connectToBridge_outcome (controller : option ControllerConfig.t)
    (newHttpClient : Outcome HttpClient) (p : Platform) :
  let p' := fst (connectToBridge controller newHttpClient p) in
  accessories p' = accessories p
  /\ discoveredCacheUUIDs p' = discoveredCacheUUIDs p
  /\ api p' = api p
  /\ match configured controller, newHttpClient with
     | true, Resolved client =>
         httpClient p' = Some client
         /\ bridgeAccessories p'
            = match getAccessories client with
              | Resolved listed => listed
              | Rejected => bridgeAccessories p
              end
     | _, _ => p' = p
     end.
Proof.
  cbv zeta.
  destruct (connectToBridge_frame controller newHttpClient p) as (Ha & Hr & Hd).
  split; [exact Hr|]. split; [exact Hd|]. split; [exact Ha|].
  unfold connectToBridge, configured. destruct controller as [cfg|]; [|reflexivity].
  destruct (Js.truthy (ControllerConfig.id cfg)); [|reflexivity].
  destruct (Js.truthy (ControllerConfig.address cfg)); [|reflexivity].
  destruct (Js.truthy (ControllerConfig.port cfg)); [|reflexivity].
  destruct (Js.truthy (ControllerConfig.pairingData cfg)); [|reflexivity].
  simpl. destruct newHttpClient as [client|]; [|reflexivity].
  now destruct (getAccessories client).
Qed.

(** X2: in every state a platform object can reach, the host interface is
    the one it was constructed with, the registry has one entry per key with
    every accessory filed under its own UUID, and remote accessories are
    listed only when a client is stored. *)
Theorem reachable_invariant (a : API) (p : Platform) :
  reachable a p ->
  api p = a
  /\ registry_ok (accessories p)
  /\ (httpClient p = None -> bridgeAccessories p = []).
Proof.
  induction 1 as [|acc p Hr (Ha & Hok & Hc)|controller newHttpClient p Hr (Ha & Hok & Hc)
                 |p Hr (Ha & Hok & Hc)].
  - split; [reflexivity|]. split; [|reflexivity].
    split; [constructor | intros k x []].
  - split; [exact Ha|]. split; [|exact Hc].
    now apply registry_ok_configureAccessory.
  - destruct (connectToBridge_frame controller newHttpClient p)
      as (Hapi & Hacc & _).
    split; [congruence|]. split; [now rewrite Hacc|].
    now apply connectToBridge_keeps_guard.
  - destruct (discoverDevices_frame p) as (Hapi & Hcl & Hb & _).
    split; [congruence|]. split; [now apply registry_ok_discoverDevices|].
    rewrite Hcl, Hb. exact Hc.
Qed.

(** The restored platform, connected and after a cycle, is such a state. *)
Lemma reachable_invariant_witness :
  registry_ok (accessories (fst (discoverDevices connectedPlatform))).
Proof.
  refine (proj1 (proj2 (reachable_invariant exampleApi _ _))).
  apply reach_discover. apply reach_connect. apply reach_configure.
  apply reach_new.
Defined.

(** X3: after a cycle that matched an accessory, the derived identifier is a
    key of the registry, every key of the registry is among the discovered
    identifiers, and the cycle has added no key but the derived one. *)
Theorem discovered_covers_registry (p : Platform) (cand : RemoteAccessory.t) :
  JsMap.wf (accessories p) ->
  matchedAccessory p = Some cand ->
  let p' := fst (discoverDevices p) in
  In (derivedIdentifier p cand) (JsMap.keys (accessories p'))
  /\ (forall k, In k (JsMap.keys (accessories p')) ->
                In k (discoveredCacheUUIDs p'))
  /\ (forall k, In k (JsMap.keys (accessories p')) ->
                k = derivedIdentifier p cand \/ In k (JsMap.keys (accessories p))).
Proof.
  intros Hwf E. cbv zeta.
  destruct (after_matching_cycle p cand Hwf E) as (x & _ & Hp1 & Hget & _ & _).
  split; [apply In_keys with x; now apply get_In|].
  rewrite Hp1. cbn [accessories discoveredCacheUUIDs]. split.
  - intros k Hk. apply in_map_iff in Hk. destruct Hk as ([k' v] & <- & Hin).
    apply filter_In in Hin. destruct Hin as [_ Hs]. now apply includes_In.
  - intros k Hk. apply in_map_iff in Hk. destruct Hk as ([k' v] & <- & Hin).
    apply filter_In in Hin. destruct Hin as [Hin _]. apply In_set in Hin.
    destruct Hin as [[-> _]|Hin]; [now left | right; now apply In_keys with v].
Qed.

Lemma discovered_covers_registry_witness :
  In "uuid-5"%string
     (JsMap.keys (accessories (fst (discoverDevices connectedPlatform)))).
Proof.
  exact (proj1 (discovered_covers_registry connectedPlatform exampleVacuum
                  (proj1 registry_ok_connectedPlatform) eq_refl)).
Defined.

(** X4: a cycle constructs a handler object and calls the host's registry
    only when it matched an accessory, and then once each: an accessory found
    under the derived identifier is updated, keeping its name and UUID and
    taking the new context, and is not registered again; otherwise a new
    accessory, named after the first service of the remote accessory or
    'Robot Vacuum', is registered.  The handler object is constructed for the
    accessory the registry holds afterwards under that identifier. *)
Theorem reuse_or_register (p : Platform) :
  JsMap.wf (accessories p) ->
  let eff := snd (discoverDevices p) in
  match matchedAccessory p with
  | None => registered eff = [] /\ updated eff = [] /\ constructed eff = []
  | Some cand =>
      let uuid := derivedIdentifier p cand in
      exists acc,
        JsMap.get uuid (accessories (fst (discoverDevices p))) = Some acc
        /\ constructed eff = [new_VacuumAccessory acc]
        /\ context acc = matchedContext cand
        /\ match JsMap.get uuid (accessories p) with
           | Some old =>
               registered eff = [] /\ updated eff = [acc]
               /\ displayName acc = displayName old /\ UUID acc = UUID old
           | None =>
               registered eff = [acc] /\ updated eff = []
               /\ displayName acc = candidateDisplayName cand /\ UUID acc = uuid
           end
  end.
Proof.
  intros Hwf. cbv zeta. destruct (matchedAccessory p) as [cand|] eqn:E.
  2:{ destruct (matchedAccessory_None _ E) as [msg ->]. now repeat split. }
  destruct (after_matching_cycle p cand Hwf E) as (x & _ & _ & Hget & _ & _).
  rewrite Hget. revert Hget.
  rewrite (matchedAccessory_Some _ _ E). cbv zeta. cbn [fst snd accessories].
  unfold afterReuseOrCreate, reuseOrCreate.
  set (uuid := derivedIdentifier p cand).
  destruct (missingWarnings_silent (onCharacteristic (matchedContext cand))
              (batteryCharacteristic (matchedContext cand))) as (Hu & Hr & Hc).
  destruct (JsMap.get uuid (accessories p)) as [old|] eqn:G; cbn [fst snd];
    rewrite removeStale_spec by (now apply wf_set); cbn [fst snd];
    rewrite !updated_app, !registered_app, !constructed_app, Hu, Hr, Hc;
    match goal with
    | |- context [retireEffects ?d ?m] =>
        destruct (retireEffects_quiet d m) as (-> & -> & ->)
    end;
    change (seen (discoveredAfter p cand))
      with (fun e : string * PlatformAccessory =>
              includes (discoveredAfter p cand) (fst e));
    rewrite get_filter_keys;
    (destruct (includes (discoveredAfter p cand) uuid); [|discriminate]);
    rewrite get_set_same; intros [= <-]; eexists; simpl; repeat split.
Qed.

Lemma reuse_or_register_witness :
  exists acc,
    registered (snd (discoverDevices connectedPlatform)) = [acc]
    /\ displayName acc = "Vacuum"%string /\ UUID acc = "uuid-5"%string.
Proof.
  destruct (reuse_or_register connectedPlatform (proj1 registry_ok_connectedPlatform))
    as (acc & _ & _ & _ & Hreg & _ & Hname & Huuid).
  exists acc. repeat split; assumption.
Defined.

Section LaunchFacts.

Lemma connectToBridge_logs_only (controller : option ControllerConfig.t)
    (newHttpClient : Outcome HttpClient) (p : Platform) :
  filter isRegistryCall (snd (connectToBridge controller newHttpClient p)) = []
  /\ requests (snd (connectToBridge controller newHttpClient p)) = [].
Proof.
  unfold connectToBridge. destruct controller as [cfg|]; [|now split].
  destruct (_ || _); [now split|].
  destruct newHttpClient as [client|]; [|now split].
  destruct (getAccessories client); now split.
Qed.

End LaunchFacts.

(** X5: when the connection attempt at launch leaves the platform without a
    client or without listed accessories, the launch keeps the registry as it
    was, records no identifier as discovered, constructs no handler object
    and makes no call to the host's registry. *)
Theorem launch_without_bridge (controller : option ControllerConfig.t)
    (newHttpClient : Outcome HttpClient) (p : Platform) :
  let p1 := fst (connectToBridge controller newHttpClient p) in
  httpClient p1 = None \/ bridgeAccessories p1 = [] ->
  let launched := didFinishLaunching controller newHttpClient p in
  accessories (fst launched) = accessories p
  /\ discoveredCacheUUIDs (fst launched) = discoveredCacheUUIDs p
  /\ filter isRegistryCall (snd launched) = [].
Proof.
  cbv zeta. intros H. unfold didFinishLaunching.
  destruct (connectToBridge_frame controller newHttpClient p) as (_ & Hacc & Hd).
  destruct (connectToBridge_logs_only controller newHttpClient p) as (Hlog & _).
  destruct (connectToBridge controller newHttpClient p) as [p1 eff1]. simpl in *.
  assert (E : matchedAccessory p1 = None).
  { unfold matchedAccessory. destruct H as [-> | ->]; [reflexivity|].
    now destruct (httpClient p1). }
  destruct (matchedAccessory_None _ E) as [msg ->]. simpl.
  rewrite filter_registry_app, Hlog. now repeat split.
Qed.

(** A launch whose configuration lacks the pairing data. *)
Lemma launch_without_bridge_witness :
  accessories (fst (didFinishLaunching (Some configWithoutPairing)
                      (Resolved (exampleClient [exampleVacuum])) restoredPlatform))
  = accessories restoredPlatform.
Proof.
  exact (proj1 (launch_without_bridge (Some configWithoutPairing)
                  (Resolved (exampleClient [exampleVacuum])) restoredPlatform
                  (or_introl eq_refl))).
Defined.

Section CaptureFacts.

(** The scan of one service: the variable is kept when no characteristic has
    the wanted type, and otherwise becomes the iid of one that has. *)
Lemma scanCharacteristics_cases (code : string)
    (chs : list RemoteCharacteristic.t) (captured : Js.value) :
  (scanCharacteristics code chs captured = captured
   /\ forall c, In c chs -> endsWithShort (RemoteCharacteristic.type c) code = false)
  \/ exists ch,
       In ch chs /\ endsWithShort (RemoteCharacteristic.type ch) code = true
       /\ scanCharacteristics code chs captured
          = Js.number (RemoteCharacteristic.iid ch).
Proof.
  revert captured. induction chs as [|c chs IH]; intros captured.
  - left. split; [reflexivity | intros c []].
  - unfold scanCharacteristics in *. simpl.
    destruct (endsWithShort (RemoteCharacteristic.type c) code) eqn:E.
    + right. destruct (IH (Js.number (RemoteCharacteristic.iid c)))
        as [[-> _]|(ch & Hin & Hm & ->)].
      * exists c. repeat split; [now left | exact E].
      * exists ch. repeat split; [now right | exact Hm].
    + destruct (IH captured) as [[-> Hnone]|(ch & Hin & Hm & ->)].
      * left. split; [reflexivity|]. intros c' [<-|Hc']; [exact E | now apply Hnone].
      * right. exists ch. repeat split; [now right | exact Hm].
Qed.

Lemma holds_app_l (svcCode chCode : string) (l1 l2 : list RemoteService.t) (n : Z) :
  holds svcCode chCode l1 n -> holds svcCode chCode (l1 ++ l2) n.
Proof.
  intros (svc & ch & H1 & H2). exists svc, ch. split; [|exact H2].
  apply in_or_app. now left.
Qed.

Lemma genuine_step (pre : list RemoteService.t) (svc : RemoteService.t)
    (captured : Js.value * Js.value) :
  genuine pre captured -> genuine (pre ++ [svc]) (scanService captured svc).
Proof.
  destruct captured as [on battery]. intros [Hon Hbat]. unfold scanService.
  assert (Hon' : on = Js.undefined
                 \/ exists n, on = Js.number n /\ holds "49" "25" (pre ++ [svc]) n).
  { destruct Hon as [?|(n & ? & ?)]; [now left|].
    right. exists n. split; [assumption | now apply holds_app_l]. }
  assert (Hbat' : battery = Js.undefined
                  \/ exists n, battery = Js.number n
                               /\ holds "96" "68" (pre ++ [svc]) n).
  { destruct Hbat as [?|(n & ? & ?)]; [now left|].
    right. exists n. split; [assumption | now apply holds_app_l]. }
  destruct (endsWithShort (RemoteService.type svc) "49") eqn:E49.
  - split; [|exact Hbat']. simpl.
    destruct (scanCharacteristics_cases "25" (RemoteService.characteristics svc) on)
      as [[-> _]|(ch & Hin & Hm & ->)]; [exact Hon'|].
    right. eexists. split; [reflexivity|]. exists svc, ch.
    repeat split; try assumption. apply in_or_app. right. now left.
  - destruct (endsWithShort (RemoteService.type svc) "96") eqn:E96;
      [|now split].
    split; [exact Hon'|]. simpl.
    destruct (scanCharacteristics_cases "68" (RemoteService.characteristics svc) battery)
      as [[-> _]|(ch & Hin & Hm & ->)]; [exact Hbat'|].
    right. eexists. split; [reflexivity|]. exists svc, ch.
    repeat split; try assumption. apply in_or_app. right. now left.
Qed.

Lemma genuine_fold (svcs pre : list RemoteService.t) (captured : Js.value * Js.value) :
  genuine pre captured -> genuine (pre ++ svcs) (fold_left scanService svcs captured).
Proof.
  revert pre captured. induction svcs as [|svc svcs IH]; intros pre captured H.
  - now rewrite app_nil_r.
  - simpl. change (svc :: svcs) with ([svc] ++ svcs). rewrite app_assoc.
    apply IH. now apply genuine_step.
Qed.

(** A variable that holds a number holds a number after more services. *)
Lemma number_stays (svcs : list RemoteService.t) (captured : Js.value * Js.value) :
  ((exists n, fst captured = Js.number n) ->
   exists n, fst (fold_left scanService svcs captured) = Js.number n)
  /\ ((exists n, snd captured = Js.number n) ->
      exists n, snd (fold_left scanService svcs captured) = Js.number n).
Proof.
  revert captured. induction svcs as [|svc svcs IH]; intros [on battery];
    [now split|].
  simpl. destruct (IH (scanService (on, battery) svc)) as [IHon IHbat].
  unfold scanService in *.
  destruct (endsWithShort (RemoteService.type svc) "49");
    [|destruct (endsWithShort (RemoteService.type svc) "96")]; simpl in *.
  - split; [|exact IHbat]. intros [n ->]. apply IHon.
    destruct (scanCharacteristics_cases "25" (RemoteService.characteristics svc)
                (Js.number n)) as [[-> _]|(ch & _ & _ & ->)]; now eexists.
  - split; [exact IHon|]. intros [n ->]. apply IHbat.
    destruct (scanCharacteristics_cases "68" (RemoteService.characteristics svc)
                (Js.number n)) as [[-> _]|(ch & _ & _ & ->)]; now eexists.
  - now split.
Qed.

End CaptureFacts.

(** X6: the iid captured for On is never made up: the variable ends as
    [undefined] or as the iid of a characteristic of type "25" in a service
    of type "49" of the accessory, and it is [undefined] exactly when no
    such characteristic exists; likewise for BatteryLevel with "68" in
    "96". *)
Theorem captured_iids_genuine (svcs : list RemoteService.t) :
  genuine svcs (extractCharacteristics svcs)
  /\ (fst (extractCharacteristics svcs) = Js.undefined
      <-> ~ exists n, holds "49" "25" svcs n)
  /\ (snd (extractCharacteristics svcs) = Js.undefined
      <-> ~ exists n, holds "96" "68" svcs n).
Proof.
  assert (Hgen : genuine svcs (extractCharacteristics svcs)).
  { apply (genuine_fold svcs [] (Js.undefined, Js.undefined)).
    split; now left. }
  assert (Hon : (exists n, holds "49" "25" svcs n) ->
                exists n, fst (extractCharacteristics svcs) = Js.number n).
  { intros (n & svc & ch & Hsvc & Hch & Ht & Hc & _).
    apply in_split in Hsvc. destruct Hsvc as (l1 & l2 & ->).
    unfold extractCharacteristics. rewrite fold_left_app. simpl.
    apply number_stays.
    destruct (fold_left scanService l1 _) as [on battery].
    unfold scanService. rewrite Ht. simpl.
    destruct (scanCharacteristics_cases "25" (RemoteService.characteristics svc) on)
      as [[_ Hnone]|(ch' & _ & _ & ->)]; [|now eexists].
    rewrite (Hnone ch Hch) in Hc. discriminate. }
  assert (Hbat : (exists n, holds "96" "68" svcs n) ->
                 exists n, snd (extractCharacteristics svcs) = Js.number n).
  { intros (n & svc & ch & Hsvc & Hch & Ht & Hc & _).
    apply in_split in Hsvc. destruct Hsvc as (l1 & l2 & ->).
    unfold extractCharacteristics. rewrite fold_left_app. simpl.
    apply number_stays.
    destruct (fold_left scanService l1 _) as [on battery].
    unfold scanService.
    destruct (endsWithShort (RemoteService.type svc) "49") eqn:E49.
    { apply endsWithShort_49_not_96 in E49. congruence. }
    rewrite Ht. simpl.
    destruct (scanCharacteristics_cases "68" (RemoteService.characteristics svc) battery)
      as [[_ Hnone]|(ch' & _ & _ & ->)]; [|now eexists].
    rewrite (Hnone ch Hch) in Hc. discriminate. }
  split; [exact Hgen|]. destruct Hgen as [Gon Gbat]. split; split.
  - intros Hu Hex. destruct (Hon Hex) as [n Hn]. congruence.
  - intros Hno. destruct Gon as [?|(n & _ & Hh)]; [assumption|].
    exfalso. apply Hno. now exists n.
  - intros Hu Hex. destruct (Hbat Hex) as [n Hn]. congruence.
  - intros Hno. destruct Gbat as [?|(n & _ & Hh)]; [assumption|].
    exfalso. apply Hno. now exists n.
Qed.

Section WarningFacts.

Lemma reuseOrCreate_effects (cand : RemoteAccessory.t) (uuid : string)
    (ctx : Context) (accs : JsMap.t PlatformAccessory) :
  (forall msg, ~ In (Log Warn msg) (snd (reuseOrCreate cand uuid ctx accs)))
  /\ exists acc,
       constructed (snd (reuseOrCreate cand uuid ctx accs)) = [new_VacuumAccessory acc]
       /\ context acc = ctx.
Proof.
  unfold reuseOrCreate. destruct (JsMap.get uuid accs) as [old|]; simpl.
  - split; [|now eexists]. intros msg [H|[H|[H|[]]]]; discriminate.
  - split; [|now eexists]. intros msg [H|[H|[H|[]]]]; discriminate.
Qed.

Lemma retireEffects_no_warning (d : list string) (m : JsMap.t PlatformAccessory)
    (msg : string) :
  ~ In (Log Warn msg) (retireEffects d m).
Proof.
  unfold retireEffects. induction m as [|e m IH]; simpl; [tauto|].
  intros H. apply in_app_or in H. destruct H as [H|H]; [|now apply IH].
  destruct (seen d e); simpl in H; [tauto|].
  destruct H as [H|[H|[]]]; discriminate.
Qed.

(** A matching cycle stores the matched context under the derived
    identifier and constructs one handler object, for the accessory that
    holds it. *)
Lemma matching_cycle_handler (p : Platform) (cand : RemoteAccessory.t) :
  JsMap.wf (accessories p) ->
  matchedAccessory p = Some cand ->
  exists acc,
    JsMap.get (derivedIdentifier p cand) (accessories (fst (discoverDevices p)))
    = Some acc
    /\ context acc = matchedContext cand
    /\ constructed (snd (discoverDevices p)) = [new_VacuumAccessory acc].
Proof.
  intros Hwf E.
  destruct (after_matching_cycle p cand Hwf E) as (x & Hctx & _ & Hget & _ & _).
  exists x. split; [exact Hget|]. split; [exact Hctx|]. revert Hget.
  rewrite (matchedAccessory_Some _ _ E). cbv zeta. cbn [fst snd accessories].
  unfold afterReuseOrCreate, reuseOrCreate.
  set (uuid := derivedIdentifier p cand).
  destruct (missingWarnings_silent (onCharacteristic (matchedContext cand))
              (batteryCharacteristic (matchedContext cand))) as (_ & _ & Hc).
  destruct (JsMap.get uuid (accessories p)) as [old|] eqn:G; cbn [fst snd];
    rewrite removeStale_spec by (now apply wf_set); cbn [fst snd];
    rewrite !constructed_app, Hc;
    match goal with
    | |- context [retireEffects ?d ?m] =>
        destruct (retireEffects_quiet d m) as (_ & _ & ->)
    end;
    change (seen (discoveredAfter p cand))
      with (fun e : string * PlatformAccessory =>
              includes (discoveredAfter p cand) (fst e));
    rewrite get_filter_keys;
    (destruct (includes (discoveredAfter p cand) uuid); [|discriminate]);
    rewrite get_set_same; intros [= <-]; reflexivity.
Qed.

Lemma matching_cycle_warnings (p : Platform) (cand : RemoteAccessory.t)
    (msg : string) :
  JsMap.wf (accessories p) ->
  matchedAccessory p = Some cand ->
  In (Log Warn msg) (snd (discoverDevices p))
  <-> In (Log Warn msg)
         (missingWarnings (onCharacteristic (matchedContext cand))
                          (batteryCharacteristic (matchedContext cand))).
Proof.
  intros Hwf E.
  rewrite (matchedAccessory_Some _ _ E). cbv zeta. cbn [snd].
  unfold afterReuseOrCreate.
  destruct (reuseOrCreate_effects cand (derivedIdentifier p cand)
              (matchedContext cand) (accessories p)) as (Hnw & _).
  destruct (reuseOrCreate_spec cand (derivedIdentifier p cand)
              (matchedContext cand) (accessories p)) as (x & Hfst & _).
  rewrite Hfst, removeStale_spec by now apply wf_set. cbn [snd].
  rewrite in_app_iff, in_app_iff. split; [|tauto].
  intros [H|[H|H]]; [exact H | now apply Hnw in H |].
  now apply retireEffects_no_warning in H.
Qed.

End WarningFacts.

(** X7: a cycle that matched an accessory warns that the On characteristic
    could not be located exactly when the value it captured is falsy, that
    is [undefined] or the iid 0, and likewise for BatteryLevel.  Warned or
    not, the cycle stores the captured context in the registry under the
    derived identifier and constructs one handler object, for the accessory
    that holds that context; when the captured On value is falsy that
    handler object sends no write to the bridge, and when the captured
    BatteryLevel value is falsy it sends no battery read. *)
Theorem discovery_warnings (p : Platform) (cand : RemoteAccessory.t) :
  JsMap.wf (accessories p) ->
  matchedAccessory p = Some cand ->
  let eff := snd (discoverDevices p) in
  let ctx := matchedContext cand in
  (In (Log Warn "Could not locate On characteristic for vacuum accessory") eff
   <-> missing (onCharacteristic ctx))
  /\ (In (Log Warn "Could not locate BatteryLevel characteristic for vacuum accessory") eff
      <-> missing (batteryCharacteristic ctx))
  /\ exists acc,
       JsMap.get (derivedIdentifier p cand) (accessories (fst (discoverDevices p)))
       = Some acc
       /\ context acc = ctx
       /\ constructed eff = [new_VacuumAccessory acc]
       /\ (missing (onCharacteristic ctx) ->
           forall c b, requests (snd (setOn c b (new_VacuumAccessory acc))) = [])
       /\ (missing (batteryCharacteristic ctx) ->
           forall c,
             requests (snd (fst (getBatteryLevel c (new_VacuumAccessory acc)))) = []).
Proof.
  intros Hwf E. cbv zeta. split; [|split].
  - rewrite (matching_cycle_warnings p cand _ Hwf E). unfold missingWarnings, missing.
    destruct (Js.truthy (onCharacteristic (matchedContext cand))),
             (Js.truthy (batteryCharacteristic (matchedContext cand))); simpl; split;
      intros H; try reflexivity; try discriminate; try tauto;
      repeat (destruct H as [H|H]; try discriminate H); tauto.
  - rewrite (matching_cycle_warnings p cand _ Hwf E). unfold missingWarnings, missing.
    destruct (Js.truthy (onCharacteristic (matchedContext cand))),
             (Js.truthy (batteryCharacteristic (matchedContext cand))); simpl; split;
      intros H; try reflexivity; try discriminate; try tauto;
      repeat (destruct H as [H|H]; try discriminate H); tauto.
  - destruct (matching_cycle_handler p cand Hwf E) as (acc & Hget & Hctx & Hcon).
    exists acc. split; [exact Hget|]. split; [exact Hctx|]. split; [exact Hcon|].
    split.
    + intros Hm c b. rewrite setOn_requests. cbv zeta. simpl accessory.
      rewrite Hctx. unfold missing in Hm. now rewrite Hm, andb_false_r.
    + intros Hm c. rewrite getBatteryLevel_requests. cbv zeta. simpl accessory.
      rewrite Hctx. unfold missing in Hm. now rewrite Hm, andb_false_r.
Qed.

(** An On characteristic at iid 0: the warning is logged, the context with
    the iid 0 is stored, and the handler object sends no write. *)
Lemma discovery_warnings_witness :
  In (Log Warn "Could not locate On characteristic for vacuum accessory")
     (snd (discoverDevices zeroIidPlatform))
  /\ exists acc,
       JsMap.get "uuid-6"%string (accessories (fst (discoverDevices zeroIidPlatform)))
       = Some acc
       /\ onCharacteristic (context acc) = Js.number 0
       /\ constructed (snd (discoverDevices zeroIidPlatform)) = [new_VacuumAccessory acc]
       /\ requests (snd (setOn (Some (exampleClient [])) true (new_VacuumAccessory acc)))
          = [].
Proof.
  destruct (discovery_warnings zeroIidPlatform zeroIidVacuum (NoDup_nil _) eq_refl)
    as (Hw & _ & acc & Hget & Hctx & Hcon & Hset & _).
  split; [apply Hw; reflexivity|].
  exists acc. split; [exact Hget|]. split; [now rewrite Hctx|].
  split; [exact Hcon|]. apply Hset. reflexivity.
Defined.

Section ConfigureFacts.

Lemma set_set_same {V : Type} (k : string) (v : V) (m : JsMap.t V) :
  JsMap.set k v (JsMap.set k v m) = JsMap.set k v m.
Proof. apply set_get_id. apply get_set_same. Qed.

End ConfigureFacts.

(** X8: after the host has handed over an accessory, the registry holds it
    under its UUID and every other key as before; an accessory with a UUID
    the registry already has takes the place of the earlier one, so the keys
    stay as they were, and otherwise its UUID becomes the last key.  Handing
    the same accessory over twice is the same as once.  Nothing else of the
    platform changes. *)
Theorem configureAccessory_lookup (acc : PlatformAccessory) (p : Platform) :
  let p' := fst (configureAccessory acc p) in
  JsMap.get (UUID acc) (accessories p') = Some acc
  /\ (forall k, k <> UUID acc ->
                JsMap.get k (accessories p') = JsMap.get k (accessories p))
  /\ JsMap.keys (accessories p')
     = match JsMap.get (UUID acc) (accessories p) with
       | Some _ => JsMap.keys (accessories p)
       | None => JsMap.keys (accessories p) ++ [UUID acc]
       end
  /\ accessories (fst (configureAccessory acc p')) = accessories p'
  /\ (api p' = api p /\ discoveredCacheUUIDs p' = discoveredCacheUUIDs p
      /\ bridgeAccessories p' = bridgeAccessories p /\ httpClient p' = httpClient p).
Proof.
  cbv zeta. simpl. split; [apply get_set_same|]. split.
  - intros k Hk. apply get_set_other. congruence.
  - split; [apply keys_set|]. split; [apply set_set_same | now repeat split].
Qed.

Section RestoreFacts.

Lemma reachable_fold_configure (a : API) (kept : JsMap.t PlatformAccessory) :
  forall p, reachable a p ->
    reachable a (fold_left (fun p entry => fst (configureAccessory (snd entry) p))
                           kept p).
Proof.
  induction kept as [|e kept IH]; intros p Hp; simpl; [exact Hp|].
  apply IH. now apply reach_configure.
Qed.

End RestoreFacts.

(** X9: a registry the host kept, handed back accessory by accessory to a
    new platform object, is the registry of that object, entry for entry and
    in the same order; the object has discovered nothing, holds no client
    and lists no remote accessory. *)
Theorem restore_round_trip (a : API) (kept : JsMap.t PlatformAccessory) :
  registry_ok kept ->
  accessories (restore a kept) = kept
  /\ reachable a (restore a kept)
  /\ discoveredCacheUUIDs (restore a kept) = []
  /\ bridgeAccessories (restore a kept) = []
  /\ httpClient (restore a kept) = None.
Proof.
  intros Hok. destruct (restore_spec a kept Hok) as (H1 & _ & H3 & H4 & H5).
  split; [exact H1|]. split; [|now repeat split].
  apply reachable_fold_configure. constructor.
Qed.

(** The registry a cycle left, restored. *)
Lemma restore_round_trip_witness :
  accessories (restore exampleApi (accessories (fst (discoverDevices connectedPlatform))))
  = accessories (fst (discoverDevices connectedPlatform)).
Proof.
  refine (proj1 (restore_round_trip exampleApi _ _)).
  apply registry_ok_discoverDevices. exact registry_ok_connectedPlatform.
Defined.

(* ================================================================= *)
(** ** Further properties of the handlers *)

Section RunFacts.

Implicit Types (this : VacuumAccessory) (cs : list Call).

Lemma run_calls_app cs1 cs2 this :
  run_calls (cs1 ++ cs2) this
  = let '(this1, eff1, ans1) := run_calls cs1 this in
    let '(this2, eff2, ans2) := run_calls cs2 this1 in
    (this2, eff1 ++ eff2, ans1 ++ ans2).
Proof.
  revert this. induction cs1 as [|c cs1 IH]; intros this; simpl.
  - now destruct (run_calls cs2 this) as [[this2 eff2] ans2].
  - destruct (run_call c this) as [[this1 eff1] a].
    rewrite IH. destruct (run_calls cs1 this1) as [[this' eff'] ans'].
    destruct (run_calls cs2 this') as [[this2 eff2] ans2].
    now rewrite app_assoc.
Qed.

Lemma run_calls_answers cs this :
  List.length (snd (run_calls cs this)) = List.length cs.
Proof.
  revert this. induction cs as [|c cs IH]; intros this; simpl; [reflexivity|].
  destruct (run_call c this) as [[this1 eff1] a]. specialize (IH this1).
  destruct (run_calls cs this1) as [[this2 eff2] ans]. simpl in *. now rewrite IH.
Qed.

Lemma run_call_lastOnState (c : Call) this :
  lastOnState (fst (fst (run_call c this)))
  = match c with CallSetOn _ v => v | _ => lastOnState this end.
Proof.
  destruct c as [cl b| |cl]; simpl.
  - pose proof (setOn_state cl b this) as H.
    destruct (setOn cl b this) as [this' eff]. simpl in *. now subst.
  - reflexivity.
  - unfold getBatteryLevel, getBatteryLevel_begin. cbv zeta.
    destruct (_ || _); [reflexivity|]. destruct cl as [client|]; [|reflexivity].
    unfold getBatteryLevel_resume.
    destruct (getCharacteristics client _) as [chars|]; [|reflexivity].
    now destruct (firstValue chars).
Qed.

Lemma run_calls_lastOnState cs this :
  lastOnState (fst (fst (run_calls cs this))) = lastWrite cs (lastOnState this).
Proof.
  unfold lastWrite. revert this. induction cs as [|c cs IH]; intros this; simpl;
    [reflexivity|].
  pose proof (run_call_lastOnState c this) as H.
  destruct (run_call c this) as [[this1 eff1] a]. specialize (IH this1).
  destruct (run_calls cs this1) as [[this2 eff2] ans]. simpl in *.
  now rewrite IH, H.
Qed.

Lemma run_call_effects (c : Call) this :
  filter isRegistryCall (snd (fst (run_call c this))) = []
  /\ (List.length (requests (snd (fst (run_call c this)))) <= 1)%nat.
Proof.
  destruct c as [cl b| |cl]; simpl.
  - unfold setOn, setOn_begin. cbv zeta.
    destruct (_ || _); [simpl; split; [reflexivity | lia]|].
    destruct cl as [client|]; [|simpl; split; [reflexivity | lia]].
    destruct (setCharacteristics client _); simpl; split; (reflexivity || lia).
  - split; [reflexivity | simpl; lia].
  - unfold getBatteryLevel, getBatteryLevel_begin. cbv zeta.
    destruct (_ || _); [simpl; split; [reflexivity | lia]|].
    destruct cl as [client|]; [|simpl; split; [reflexivity | lia]].
    unfold getBatteryLevel_resume.
    destruct (getCharacteristics client _) as [chars|];
      [destruct (firstValue chars)|]; simpl; split; (reflexivity || lia).
Qed.

Lemma set_lastBatteryLevel_twice (n : Z) this :
  set_lastBatteryLevel n (set_lastBatteryLevel n this) = set_lastBatteryLevel n this.
Proof. reflexivity. Qed.

End RunFacts.

(** X10: over any calls, the switch state a handler object ends with is the
    value of the last write among them, whatever the bridge answered, and
    its initial state when there was no write; a read of the switch returns
    the value of the last write before it. *)
Theorem last_write_wins (cs1 cs2 : list Call) (this : VacuumAccessory) :
  lastOnState (fst (fst (run_calls cs1 this))) = lastWrite cs1 (lastOnState this)
  /\ nth_error (snd (run_calls (cs1 ++ CallGetOn :: cs2) this)) (List.length cs1)
     = Some (OnState (lastWrite cs1 (lastOnState this))).
Proof.
  split; [apply run_calls_lastOnState|].
  rewrite run_calls_app.
  pose proof (run_calls_lastOnState cs1 this) as Hs.
  pose proof (run_calls_answers cs1 this) as Hl.
  destruct (run_calls cs1 this) as [[this1 eff1] ans1]. simpl in Hs, Hl.
  simpl run_calls.
  destruct (run_calls cs2 this1) as [[this2 eff2] ans2]. simpl.
  rewrite nth_error_app2 by lia. rewrite Hl, Nat.sub_diag. simpl. now rewrite Hs.
Qed.

(** X11: the handlers never call the host's registry and never construct a
    handler object, and a call sends at most one request to the bridge: a
    failed request is not sent again. *)
Theorem handlers_send_at_most_once (cs : list Call) (this : VacuumAccessory) :
  filter isRegistryCall (snd (fst (run_calls cs this))) = []
  /\ (List.length (requests (snd (fst (run_calls cs this)))) <= List.length cs)%nat.
Proof.
  revert this. induction cs as [|c cs IH]; intros this; simpl;
    [split; [reflexivity | lia]|].
  destruct (run_call_effects c this) as [Hr Hq].
  destruct (run_call c this) as [[this1 eff1] a]. specialize (IH this1).
  destruct (run_calls cs this1) as [[this2 eff2] ans]. simpl in *.
  destruct IH as [IHr IHq]. rewrite filter_registry_app, Hr, IHr.
  split; [reflexivity|]. rewrite requests_app, length_app. lia.
Qed.

(** X12: a battery read repeated against the same client, with nothing in
    between, returns the same level, has the same effects and leaves the
    handler object as the first read left it. *)
Theorem battery_read_repeatable (c : option HttpClient) (this : VacuumAccessory) :
  let first := getBatteryLevel c this in
  getBatteryLevel c (fst (fst first)) = first.
Proof.
  cbv zeta. unfold getBatteryLevel, getBatteryLevel_begin. cbv zeta.
  destruct (negb (Js.truthy (accessoryAid (context (accessory this))))
            || negb (Js.truthy (batteryCharacteristic (context (accessory this)))))
    eqn:E.
  - simpl. now rewrite E.
  - destruct c as [client|]; [|simpl; now rewrite E].
    unfold getBatteryLevel_resume.
    destruct (getCharacteristics client _) as [chars|] eqn:G.
    + destruct (firstValue chars) eqn:F; simpl; rewrite E, G; simpl; now rewrite F.
    + simpl. rewrite E, G. reflexivity.
Qed.

Section NoRequests.

Lemma requests_fold_retire (d : list string) (l : JsMap.t PlatformAccessory) :
  forall st, requests (snd (fold_left (retire d) l st)) = requests (snd st).
Proof.
  induction l as [|[id acc] l IH]; intros st; simpl; [reflexivity|].
  rewrite IH. destruct (negb (includes d id)); simpl; [|reflexivity].
  rewrite requests_app. simpl. apply app_nil_r.
Qed.

Lemma requests_reuseOrCreate (cand : RemoteAccessory.t) (uuid : string)
    (ctx : Context) (accs : JsMap.t PlatformAccessory) :
  requests (snd (reuseOrCreate cand uuid ctx accs)) = [].
Proof. unfold reuseOrCreate. now destruct (JsMap.get uuid accs). Qed.

End NoRequests.

(** X13: the platform never reads or writes a characteristic of the bridge:
    neither the connection attempt, nor the restoring of an accessory, nor a
    discovery cycle, nor the whole launch sends a get or a set. *)
Theorem platform_sends_no_requests (controller : option ControllerConfig.t)
    (newHttpClient : Outcome HttpClient) (acc : PlatformAccessory) (p : Platform) :
  requests (snd (connectToBridge controller newHttpClient p)) = []
  /\ requests (snd (configureAccessory acc p)) = []
  /\ requests (snd (discoverDevices p)) = []
  /\ requests (snd (didFinishLaunching controller newHttpClient p)) = [].
Proof.
  assert (Hd : forall q, requests (snd (discoverDevices q)) = []).
  { intros q. destruct (matchedAccessory q) as [cand|] eqn:E.
    - rewrite (matchedAccessory_Some _ _ E). cbv zeta. cbn [snd].
      rewrite !requests_app, requests_missingWarnings.
      unfold afterReuseOrCreate, removeStale.
      now rewrite requests_reuseOrCreate, requests_fold_retire.
    - now destruct (matchedAccessory_None _ E) as [msg ->]. }
  destruct (connectToBridge_logs_only controller newHttpClient p) as [_ Hc].
  split; [exact Hc|]. split; [reflexivity|]. split; [apply Hd|].
  unfold didFinishLaunching.
  destruct (connectToBridge controller newHttpClient p) as [p1 eff1]. simpl in Hc.
  specialize (Hd p1). destruct (discoverDevices p1) as [p2 eff2]. simpl in *.
  now rewrite requests_app, Hc, Hd.
Qed.

(* ================================================================= *)
(** ** Properties of the discovery script *)

Section ParseFacts.

Implicit Types (raw : list string) (c : CommandLineArguments.t).

(** The equations of the loop, by the kind of the first argument. *)
Lemma parseLoop_pin (flag value : string) raw c :
  isPinFlag flag = true -> value <> ""%string ->
  parseLoop (flag :: value :: raw) c = parseLoop raw (set_pinCode value c).
Proof.
  intros Hf Hv. simpl. rewrite Hf.
  destruct (String.eqb_spec value ""); [contradiction | reflexivity].
Qed.

Lemma parseLoop_name (flag value : string) raw c :
  isPinFlag flag = false -> isNameFlag flag = true -> value <> ""%string ->
  parseLoop (flag :: value :: raw) c = parseLoop raw (set_targetName value c).
Proof.
  intros Hp Hf Hv. simpl. rewrite Hp, Hf.
  destruct (String.eqb_spec value ""); [contradiction | reflexivity].
Qed.

(** Induction on the arguments that follows the loop: it goes on with the
    rest, or with the rest of the rest. *)
Lemma parse_ind (P : list string -> Prop) :
  P [] ->
  (forall a raw, P raw -> (forall v rest, raw = v :: rest -> P rest) -> P (a :: raw)) ->
  forall raw, P raw.
Proof.
  intros H0 Hstep raw.
  assert (H : P raw /\ (forall v rest, raw = v :: rest -> P rest)).
  { induction raw as [|a raw [IH1 IH2]].
    - split; [exact H0 | discriminate].
    - split; [now apply Hstep|]. intros v rest [= -> ->]. exact IH1. }
  exact (proj1 H).
Qed.

Lemma parseLoop_overlay raw :
  forall c,
    CommandLineArguments.pinCode (parseLoop raw c)
    = match CommandLineArguments.pinCode (parseLoop raw noArguments) with
      | Some v => Some v
      | None => CommandLineArguments.pinCode c
      end
    /\ CommandLineArguments.targetName (parseLoop raw c)
       = match CommandLineArguments.targetName (parseLoop raw noArguments) with
         | Some v => Some v
         | None => CommandLineArguments.targetName c
         end.
Proof.
  induction raw as [|a raw IH1 IH2] using parse_ind; intros c; [now split|].
  assert (Hpin : forall v rest, raw = v :: rest ->
            CommandLineArguments.pinCode (parseLoop rest (set_pinCode v c))
            = match CommandLineArguments.pinCode
                      (parseLoop rest (set_pinCode v noArguments)) with
              | Some w => Some w
              | None => CommandLineArguments.pinCode c
              end
            /\ CommandLineArguments.targetName (parseLoop rest (set_pinCode v c))
               = match CommandLineArguments.targetName
                         (parseLoop rest (set_pinCode v noArguments)) with
                 | Some w => Some w
                 | None => CommandLineArguments.targetName c
                 end).
  { intros v rest Hr.
    destruct (IH2 v rest Hr (set_pinCode v c)) as [-> ->].
    destruct (IH2 v rest Hr (set_pinCode v noArguments)) as [-> ->].
    simpl.
    split; now destruct (CommandLineArguments.pinCode (parseLoop rest noArguments)),
                        (CommandLineArguments.targetName (parseLoop rest noArguments)). }
  assert (Hname : forall v rest, raw = v :: rest ->
            CommandLineArguments.pinCode (parseLoop rest (set_targetName v c))
            = match CommandLineArguments.pinCode
                      (parseLoop rest (set_targetName v noArguments)) with
              | Some w => Some w
              | None => CommandLineArguments.pinCode c
              end
            /\ CommandLineArguments.targetName (parseLoop rest (set_targetName v c))
               = match CommandLineArguments.targetName
                         (parseLoop rest (set_targetName v noArguments)) with
                 | Some w => Some w
                 | None => CommandLineArguments.targetName c
                 end).
  { intros v rest Hr.
    destruct (IH2 v rest Hr (set_targetName v c)) as [-> ->].
    destruct (IH2 v rest Hr (set_targetName v noArguments)) as [-> ->].
    simpl.
    split; now destruct (CommandLineArguments.pinCode (parseLoop rest noArguments)),
                        (CommandLineArguments.targetName (parseLoop rest noArguments)). }
  cbn [parseLoop]. destruct (isPinFlag a); [|destruct (isNameFlag a)].
  - destruct raw as [|v rest]; [now split|].
    destruct (String.eqb v ""); cbn [negb]; [apply IH1 | now apply Hpin].
  - destruct raw as [|v rest]; [now split|].
    destruct (String.eqb v ""); cbn [negb]; [apply IH1 | now apply Hname].
  - apply IH1.
Qed.

End ParseFacts.

Section ParseTheorems.

Implicit Types (raw : list string) (c : CommandLineArguments.t).

Lemma parseLoop_flagless_prefix (junk : list string) raw c :
  flagless junk -> parseLoop (junk ++ raw) c = parseLoop raw c.
Proof.
  induction junk as [|a junk IH]; intros Hf; [reflexivity|].
  destruct (Hf a (or_introl eq_refl)) as [Hp Hn].
  change ((a :: junk) ++ raw) with (a :: (junk ++ raw)).
  cbn [parseLoop]. rewrite Hp, Hn. apply IH.
  intros x Hx. apply Hf. now right.
Qed.

Lemma parseLoop_without_name_flag raw :
  (forall x, In x raw -> isNameFlag x = false) ->
  forall c, CommandLineArguments.targetName (parseLoop raw c)
            = CommandLineArguments.targetName c.
Proof.
  induction raw as [|a raw IH1 IH2] using parse_ind; intros Hno c; [reflexivity|].
  assert (Hraw : forall x, In x raw -> isNameFlag x = false)
    by (intros x Hx; apply Hno; now right).
  cbn [parseLoop]. rewrite (Hno a (or_introl eq_refl)).
  destruct (isPinFlag a); [|now apply IH1].
  destruct raw as [|v rest]; [reflexivity|].
  destruct (String.eqb v ""); cbn [negb]; [now apply IH1|].
  rewrite (IH2 v rest eq_refl); [reflexivity|].
  intros x Hx. apply Hraw. now right.
Qed.

(** Where a stored value comes from. *)
Lemma parseLoop_provenance raw :
  forall c,
    (forall v, CommandLineArguments.pinCode (parseLoop raw c) = Some v ->
       CommandLineArguments.pinCode c = Some v
       \/ (v <> ""%string
           /\ exists before flag after,
                raw = before ++ flag :: v :: after /\ isPinFlag flag = true))
    /\ (forall v, CommandLineArguments.targetName (parseLoop raw c) = Some v ->
          CommandLineArguments.targetName c = Some v
          \/ (v <> ""%string
              /\ exists before flag after,
                   raw = before ++ flag :: v :: after /\ isNameFlag flag = true)).
Proof.
  induction raw as [|a raw IH1 IH2] using parse_ind; intros c;
    [split; intros v H; now left|].
  assert (Hskip :
    (forall v, CommandLineArguments.pinCode (parseLoop raw c) = Some v ->
       CommandLineArguments.pinCode c = Some v
       \/ (v <> ""%string
           /\ exists before flag after,
                a :: raw = before ++ flag :: v :: after /\ isPinFlag flag = true))
    /\ (forall v, CommandLineArguments.targetName (parseLoop raw c) = Some v ->
          CommandLineArguments.targetName c = Some v
          \/ (v <> ""%string
              /\ exists before flag after,
                   a :: raw = before ++ flag :: v :: after
                   /\ isNameFlag flag = true))).
  { destruct (IH1 c) as [Hp Hn]. split; intros v H.
    - destruct (Hp v H) as [?|(Hv & b & f & af & -> & Hf)]; [now left|].
      right. split; [exact Hv|]. now exists (a :: b), f, af.
    - destruct (Hn v H) as [?|(Hv & b & f & af & -> & Hf)]; [now left|].
      right. split; [exact Hv|]. now exists (a :: b), f, af. }
  cbn [parseLoop]. destruct (isPinFlag a) eqn:Ep; [|destruct (isNameFlag a) eqn:En].
  - destruct raw as [|w rest]; [split; intros v H; now left|].
    destruct (String.eqb_spec w ""); cbn [negb]; [exact Hskip|].
    destruct (IH2 w rest eq_refl (set_pinCode w c)) as [Hp Hn]. split; intros v H.
    + destruct (Hp v H) as [Hc|(Hv & b & f & af & -> & Hf)].
      * simpl in Hc. injection Hc as <-. right. split; [assumption|].
        now exists [], a, rest.
      * right. split; [exact Hv|]. now exists (a :: w :: b), f, af.
    + destruct (Hn v H) as [Hc|(Hv & b & f & af & -> & Hf)]; [now left|].
      right. split; [exact Hv|]. now exists (a :: w :: b), f, af.
  - destruct raw as [|w rest]; [split; intros v H; now left|].
    destruct (String.eqb_spec w ""); cbn [negb]; [exact Hskip|].
    destruct (IH2 w rest eq_refl (set_targetName w c)) as [Hp Hn]. split; intros v H.
    + destruct (Hp v H) as [Hc|(Hv & b & f & af & -> & Hf)]; [now left|].
      right. split; [exact Hv|]. now exists (a :: w :: b), f, af.
    + destruct (Hn v H) as [Hc|(Hv & b & f & af & -> & Hf)].
      * simpl in Hc. injection Hc as <-. right. split; [assumption|].
        now exists [], a, rest.
      * right. split; [exact Hv|]. now exists (a :: w :: b), f, af.
  - exact Hskip.
Qed.

End ParseTheorems.

(** X14: a value [parseCommandLineArguments] stores is never the empty
    string, and it is the argument that directly follows a flag of its kind
    on the command line: "--pin" or "-p" for the PIN, "--name" or "-n" for
    the target name. *)
Theorem parsed_values_follow_flags (argv : list string) :
  (forall v,
      CommandLineArguments.pinCode (parseCommandLineArguments argv) = Some v ->
      v <> ""%string
      /\ exists before flag after,
           skipn 2 argv = before ++ flag :: v :: after /\ isPinFlag flag = true)
  /\ (forall v,
         CommandLineArguments.targetName (parseCommandLineArguments argv) = Some v ->
         v <> ""%string
         /\ exists before flag after,
              skipn 2 argv = before ++ flag :: v :: after /\ isNameFlag flag = true).
Proof.
  unfold parseCommandLineArguments.
  destruct (parseLoop_provenance (skipn 2 argv) noArguments) as [Hp Hn].
  split; intros v H.
  - destruct (Hp v H) as [Hc|Hr]; [discriminate Hc | exact Hr].
  - destruct (Hn v H) as [Hc|Hr]; [discriminate Hc | exact Hr].
Qed.

Lemma parsed_values_follow_flags_witness :
  exists before flag after,
    skipn 2 ["node"; "discover.ts"; "-p"; "123-45-678"]%string
    = before ++ flag :: "123-45-678"%string :: after
    /\ isPinFlag flag = true.
Proof.
  exact (proj2 (proj1 (parsed_values_follow_flags
                         ["node"; "discover.ts"; "-p"; "123-45-678"]%string)
                  "123-45-678"%string eq_refl)).
Defined.

(** X15: when a flag is followed by a non-empty argument, whatever that
    argument is, a later flag of the same kind replaces the value and the
    value stays when no later flag of that kind stores one; the value of
    the other kind is what the rest of the command line gives. *)
Theorem later_flag_wins (node script flag value : string) (raw : list string) :
  value <> ""%string ->
  let withFlag := parseCommandLineArguments (node :: script :: flag :: value :: raw) in
  let rest := parseCommandLineArguments (node :: script :: raw) in
  (isPinFlag flag = true ->
   CommandLineArguments.pinCode withFlag
   = match CommandLineArguments.pinCode rest with
     | Some later => Some later
     | None => Some value
     end
   /\ CommandLineArguments.targetName withFlag = CommandLineArguments.targetName rest)
  /\ (isPinFlag flag = false -> isNameFlag flag = true ->
      CommandLineArguments.targetName withFlag
      = match CommandLineArguments.targetName rest with
        | Some later => Some later
        | None => Some value
        end
      /\ CommandLineArguments.pinCode withFlag = CommandLineArguments.pinCode rest).
Proof.
  intros Hv. cbv zeta. unfold parseCommandLineArguments. cbn [skipn]. split.
  - intros Hf. rewrite (parseLoop_pin flag value raw noArguments Hf Hv).
    destruct (parseLoop_overlay raw (set_pinCode value noArguments)) as [-> ->].
    split; [reflexivity|]. simpl.
    now destruct (CommandLineArguments.targetName (parseLoop raw noArguments)).
  - intros Hp Hf. rewrite (parseLoop_name flag value raw noArguments Hp Hf Hv).
    destruct (parseLoop_overlay raw (set_targetName value noArguments)) as [-> ->].
    split; [reflexivity|]. simpl.
    now destruct (CommandLineArguments.pinCode (parseLoop raw noArguments)).
Qed.

(** A flag whose value looks like a flag: "--name" becomes the PIN, and the
    name that follows is not stored. *)
Lemma later_flag_wins_witness :
  parseCommandLineArguments
    ["node"; "discover.ts"; "--pin"; "--name"; "Home Assistant Bridge"]%string
  = {| CommandLineArguments.pinCode := Some "--name"%string;
       CommandLineArguments.targetName := None |}.
Proof.
  pose proof (later_flag_wins "node" "discover.ts" "--pin" "--name"
                ["Home Assistant Bridge"%string]) as H.
  cbv zeta in H. destruct H as [H _]; [discriminate|].
  destruct (H eq_refl) as [Hp Hn].
  destruct (parseCommandLineArguments _) as [pin name]. simpl in Hp, Hn.
  now rewrite Hp, Hn.
Defined.

(** X16: the command line the usage shows is read back: after any arguments
    that are no flags, "--pin" with a non-empty PIN and "--name" with a
    non-empty name, each present or not, give exactly those values. *)
Theorem usage_round_trip (node script : string) (junk : list string)
    (c : CommandLineArguments.t) :
  flagless junk ->
  given (CommandLineArguments.pinCode c) = CommandLineArguments.pinCode c ->
  given (CommandLineArguments.targetName c) = CommandLineArguments.targetName c ->
  parseCommandLineArguments (node :: script :: junk ++ usage c) = c.
Proof.
  intros Hj Hp Hn. unfold parseCommandLineArguments. cbn [skipn].
  rewrite parseLoop_flagless_prefix by exact Hj.
  destruct c as [[pin|] [name|]]; unfold usage, given in *; cbn in *.
  - destruct (String.eqb_spec pin ""); [discriminate|].
    destruct (String.eqb_spec name ""); [discriminate|]. reflexivity.
  - destruct (String.eqb_spec pin ""); [discriminate|]. reflexivity.
  - destruct (String.eqb_spec name ""); [discriminate|]. reflexivity.
  - reflexivity.
Qed.

Lemma usage_round_trip_witness :
  parseCommandLineArguments
    ["node"; "discover.ts"; "--verbose"; "--pin"; "123-45-678"; "--name"; "HA"]%string
  = {| CommandLineArguments.pinCode := Some "123-45-678"%string;
       CommandLineArguments.targetName := Some "HA"%string |}.
Proof.
  apply (usage_round_trip "node" "discover.ts" ["--verbose"%string]
           {| CommandLineArguments.pinCode := Some "123-45-678"%string;
              CommandLineArguments.targetName := Some "HA"%string |}).
  - intros x [<-|[]]. split; reflexivity.
  - reflexivity.
  - reflexivity.
Defined.

(** X17: the listener of ['serviceUp'] starts a pairing only with the
    service that was reported, only when a target name is given and is the
    name of that service, a PIN is given and the client could be
    constructed, and then with that PIN; it stops the discovery exactly when
    the name matched and a PIN was given, however the pairing ended.  When
    the name matches and no PIN is given it warns, pairs with nothing and
    lets the discovery run. *)
Theorem pairing_conditions (c : CommandLineArguments.t)
    (newHttpClient : Outcome unit) (pairing : Outcome string)
    (svc : DiscoveredService.t) :
  let eff := serviceUp c newHttpClient pairing svc in
  let matches :=
    given (CommandLineArguments.targetName c) = Some (DiscoveredService.name svc) in
  (forall s pin,
      In (PairSetup s pin) eff <->
      s = svc /\ matches /\ given (CommandLineArguments.pinCode c) = Some pin
      /\ newHttpClient = Resolved tt)
  /\ (In DiscoveryStop eff <->
      matches /\ exists pin, given (CommandLineArguments.pinCode c) = Some pin)
  /\ (matches -> given (CommandLineArguments.pinCode c) = None ->
      eff = [ConsoleLog "Discovered accessory:";
             ConsoleWarn "PIN code was not provided; skipping pairing."]).
Proof.
  cbv zeta. unfold serviceUp.
  destruct (given (CommandLineArguments.targetName c)) as [target|].
  2:{ split; [|split].
      - intros s pin. split; [intros [H|[]]; discriminate | intros (_ & H & _); discriminate].
      - split; [intros [H|[]]; discriminate | intros (H & _); discriminate].
      - discriminate. }
  destruct (String.eqb_spec (DiscoveredService.name svc) target) as [<-|Hne].
  2:{ split; [|split].
      - intros s pin. split; [intros [H|[]]; discriminate|].
        intros (_ & H & _). congruence.
      - split; [intros [H|[]]; discriminate | intros (H & _); congruence].
      - congruence. }
  destruct (given (CommandLineArguments.pinCode c)) as [pin0|].
  2:{ split; [|split].
      - intros s pin. split; [intros [H|[H|[]]]; discriminate|].
        intros (_ & _ & H & _). discriminate.
      - split; [intros [H|[H|[]]]; discriminate | intros (_ & pin & H); discriminate].
      - reflexivity. }
  split; [|split].
  - intros s pin. destruct newHttpClient as [[]|]; [destruct pairing|]; simpl; split;
      intros H;
      repeat match goal with
             | H : _ \/ _ |- _ => destruct H
             | H : False |- _ => destruct H
             | H : PairSetup _ _ = PairSetup _ _ |- _ => injection H as <- <-
             | H : _ /\ _ |- _ => destruct H
             | H : Some _ = Some _ |- _ => injection H as <-
             end;
      try discriminate; subst; auto 10.
  - split; [intros _; split; [reflexivity | now exists pin0]|].
    intros _. right. right. apply in_or_app. right. now left.
  - discriminate.
Qed.

Section ListingOnly.

Lemma serviceUp_without_target (c : CommandLineArguments.t)
    (newHttpClient : Outcome unit) (pairing : Outcome string)
    (svc : DiscoveredService.t) :
  CommandLineArguments.targetName c = None ->
  serviceUp c newHttpClient pairing svc = [ConsoleLog "Discovered accessory:"].
Proof. intros H. unfold serviceUp. now rewrite H. Qed.

End ListingOnly.

(** X18: when the command line has neither "--name" nor "-n", the script
    only lists what it discovers: for every reported service, whatever PIN
    was given, the listener logs the service and does nothing else; it
    starts no pairing and does not stop the discovery. *)
Theorem without_name_only_lists (argv : list string)
    (newHttpClient : Outcome unit) (pairing : Outcome string)
    (svc : DiscoveredService.t) :
  (forall x, In x (skipn 2 argv) -> isNameFlag x = false) ->
  serviceUp (parseCommandLineArguments argv) newHttpClient pairing svc
  = [ConsoleLog "Discovered accessory:"].
Proof.
  intros H. apply serviceUp_without_target. unfold parseCommandLineArguments.
  now rewrite parseLoop_without_name_flag.
Qed.

(** A PIN alone. *)
Lemma without_name_only_lists_witness :
  serviceUp (parseCommandLineArguments ["node"; "discover.ts"; "--pin"; "123-45-678"]%string)
            (Resolved tt) (Resolved "{}"%string) exampleBridge
  = [ConsoleLog "Discovered accessory:"].
Proof.
  apply without_name_only_lists.
  intros x [<-|[<-|[]]]; reflexivity.
Defined.

(** A name and a PIN, and a pairing that fails: the discovery is stopped. *)
Lemma pairing_conditions_witness :
  In DiscoveryStop
     (serviceUp (parseCommandLineArguments
                   ["node"; "discover.ts"; "-n"; "HA"; "-p"; "123-45-678"]%string)
                (Resolved tt) Rejected exampleBridge).
Proof.
  apply (proj1 (proj2 (pairing_conditions _ (Resolved tt) Rejected exampleBridge))).
  split; [reflexivity|]. now exists "123-45-678"%string.
Defined.

(* ================================================================= *)
(** ** Edges of the matcher *)

Section SuffixEdges.

Local Open Scope string_scope.

Lemma str_app_assoc (a b c : string) : (a ++ b) ++ c = a ++ (b ++ c).
Proof. induction a as [|x a IH]; simpl; [reflexivity | now rewrite IH]. Qed.

(** A type that ends in two given characters matches a two-character code
    without letters only when the code is those characters. *)
Lemma endsWithShort_two (prefix : string) (x y a b : ascii) :
  caseless (String a (String b "")) ->
  endsWithShort (prefix ++ String x (String y "")) (String a (String b "")) = true ->
  x = a /\ y = b.
Proof.
  intros [Hu _] H. apply endsWithShort_iff in H. rewrite Hu in H.
  assert (exists p, prefix ++ String x (String y "") = p ++ String a (String b ""))
    as [p Hp] by tauto.
  apply str_app_inj_length_r in Hp; [|reflexivity].
  destruct Hp as [_ Hp]. now injection Hp.
Qed.

End SuffixEdges.

(** X19: the suffix test accepts every type for the empty code, accepts a
    type that is the code itself, rejects every type shorter than the code,
    and keeps accepting when characters are put in front of an accepted
    type.  A type written in the long form, which ends in the base
    "-0000-1000-8000-0026BB765291", is accepted for none of the four codes
    of the matcher: only short-form types are recognised. *)
Theorem suffix_test_edges :
  (forall uuid, endsWithShort uuid "" = true)
  /\ (forall code, endsWithShort code code = true)
  /\ (forall uuid code,
         (String.length uuid < String.length code)%nat ->
         endsWithShort uuid code = false)
  /\ (forall front uuid code,
         endsWithShort uuid code = true ->
         endsWithShort (front ++ uuid) code = true)
  /\ (forall front code,
         In code ["49"; "96"; "25"; "68"]%string ->
         endsWithShort (front ++ "-0000-1000-8000-0026BB765291") code = false).
Proof.
  split; [|split; [|split; [|split]]].
  - intros uuid. apply endsWithShort_iff. left. exists uuid.
    induction uuid as [|x uuid IH]; simpl; [reflexivity | now rewrite <- IH].
  - intros code. apply endsWithShort_iff. left. now exists ""%string.
  - intros uuid code Hlen. unfold endsWithShort, Js.endsWith.
    rewrite toUpperCase_length.
    destruct (Nat.ltb_spec (String.length uuid) (String.length code)); [reflexivity | lia].
  - intros front uuid code H. apply endsWithShort_iff in H. apply endsWithShort_iff.
    destruct H as [[p ->]|[p ->]]; [left | right];
      exists (front ++ p)%string; now rewrite str_app_assoc.
  - intros front code Hin.
    destruct (endsWithShort (front ++ "-0000-1000-8000-0026BB765291") code) eqn:E;
      [|reflexivity].
    change "-0000-1000-8000-0026BB765291"%string
      with ("-0000-1000-8000-0026BB7652" ++ "91")%string in E.
    rewrite <- str_app_assoc in E.
    destruct Hin as [<-|[<-|[<-|[<-|[]]]]];
      apply endsWithShort_two in E; try (split; reflexivity);
      destruct E as [E1 E2]; (discriminate E1 || discriminate E2).
Qed.

Section NamingFacts.

Lemma candidateDisplayName_not_empty (cand : RemoteAccessory.t) :
  candidateDisplayName cand <> ""%string.
Proof.
  unfold candidateDisplayName. destruct (RemoteAccessory.services cand) as [|svc ?];
    [discriminate|].
  destruct (RemoteService.name svc) as [n|]; [|discriminate].
  destruct (String.eqb_spec n ""); [discriminate | assumption].
Qed.

End NamingFacts.

(** X20: an accessory a cycle registers with the host is filed under the
    identifier derived from the aid of the matched remote accessory, was not
    in the registry before the cycle, and has a display name that is not
    empty: the name of the first service of the remote accessory, or
    'Robot Vacuum' when that service has no name or an empty one. *)
Theorem registered_accessory_named (p : Platform) (acc : PlatformAccessory) :
  JsMap.wf (accessories p) ->
  In acc (registered (snd (discoverDevices p))) ->
  displayName acc <> ""%string
  /\ exists cand,
       matchedAccessory p = Some cand
       /\ UUID acc = derivedIdentifier p cand
       /\ displayName acc = candidateDisplayName cand
       /\ JsMap.get (UUID acc) (accessories p) = None
       /\ JsMap.get (UUID acc) (accessories (fst (discoverDevices p))) = Some acc.
Proof.
  intros Hwf Hin. destruct (matchedAccessory p) as [cand|] eqn:E.
  2:{ destruct (matchedAccessory_None _ E) as [msg Hd]. rewrite Hd in Hin.
      destruct Hin. }
  destruct (after_matching_cycle p cand Hwf E) as (x & _ & _ & Hget & _ & _).
  revert Hin Hget.
  rewrite (matchedAccessory_Some _ _ E). cbv zeta. cbn [fst snd accessories].
  unfold afterReuseOrCreate, reuseOrCreate.
  set (uuid := derivedIdentifier p cand).
  destruct (missingWarnings_silent (onCharacteristic (matchedContext cand))
              (batteryCharacteristic (matchedContext cand))) as (_ & Hr & _).
  destruct (JsMap.get uuid (accessories p)) as [old|] eqn:G; cbn [fst snd];
    rewrite removeStale_spec by (now apply wf_set); cbn [fst snd];
    rewrite !registered_app, Hr;
    match goal with
    | |- context [retireEffects ?d ?m] =>
        destruct (retireEffects_quiet d m) as (_ & -> & _)
    end; simpl; intros Hin Hget; [destruct Hin|].
  destruct Hin as [<-|[]]. simpl. split; [apply candidateDisplayName_not_empty|].
  exists cand. repeat split; try assumption.
  revert Hget.
  change (seen (discoveredAfter p cand))
    with (fun e : string * PlatformAccessory =>
            includes (discoveredAfter p cand) (fst e)).
  rewrite get_filter_keys.
  destruct (includes (discoveredAfter p cand) uuid); [|discriminate].
  now rewrite get_set_same.
Qed.

(** The accessory registered for [zeroIidVacuum], whose first service has an
    empty name. *)
Lemma registered_accessory_named_witness :
  exists cand,
    matchedAccessory zeroIidPlatform = Some cand
    /\ candidateDisplayName cand = "Robot Vacuum"%string
    /\ derivedIdentifier zeroIidPlatform cand = "uuid-6"%string.
Proof.
  destruct (registered_accessory_named zeroIidPlatform
              {| displayName := "Robot Vacuum";
                 UUID := "uuid-6";
                 context := {| accessoryAid := Js.number 6;
                               onCharacteristic := Js.number 0;
                               batteryCharacteristic := Js.number 9 |} |}
              (NoDup_nil _) (or_introl eq_refl))
    as (_ & cand & Hm & Hu & Hname & _).
  exists cand. repeat split; [exact Hm | now rewrite <- Hname | now rewrite <- Hu].
Defined.
